(** * mautrix-telegram: the puppet identity cache and profile reconciliation

    A shallow embedding of [mautrix_telegram/puppet.py] (class [Puppet]) and
    of the row type it extends, [mautrix_telegram/db/puppet.py].

    - Python [str] values are lists of Unicode code points, because
      [_filter_name] works on code points ([str.strip], [unicodedata]).
    - Methods that mutate [self] and call the Matrix intent, the Telegram
      client or the database are written in a state-and-exception monad; the
      answers of those collaborators are read from a [World].
    - The getters of the identity cache are coroutines: programs over the
      class attributes that suspend at each [await]. One task is run alone by
      [run]; several tasks are interleaved at their suspension points by
      [step]. *)

From Stdlib Require Import ZArith NArith List String Ascii Bool Lia DecimalString.
From stdpp Require Import base gmap strings list.
Import ListNotations.
Open Scope Z_scope.

(** ** Python strings *)

Module PyStr.

(** A character is a Unicode code point. *)
Definition char : Type := N.
Definition str : Type := list char.

(** An ASCII literal of the source, as code points. *)
Definition lit (s : string) : str := map N_of_ascii (list_ascii_of_string s).

(** [c in chars] *)
Definition mem (chars : str) (c : char) : bool := existsb (N.eqb c) chars.

Fixpoint lstrip_by (drop : char -> bool) (s : str) : str :=
  match s with
  | [] => []
  | c :: rest => if drop c then lstrip_by drop rest else s
  end.

Definition rstrip_by (drop : char -> bool) (s : str) : str :=
  rev (lstrip_by drop (rev s)).

Definition strip_by (drop : char -> bool) (s : str) : str :=
  rstrip_by drop (lstrip_by drop s).

(** [s.strip(chars)] *)
Definition strip_chars (chars s : str) : str := strip_by (mem chars) s.

(** [str.isspace] on one character: the code points CPython's
    [_PyUnicode_IsWhitespace] accepts. *)
Definition isspace (c : char) : bool :=
  ((0x09 <=? c) && (c <=? 0x0d) || (0x1c <=? c) && (c <=? 0x20)
   || (c =? 0x85) || (c =? 0xa0) || (c =? 0x1680)
   || (0x2000 <=? c) && (c <=? 0x200a)
   || (c =? 0x2028) || (c =? 0x2029) || (c =? 0x202f) || (c =? 0x205f)
   || (c =? 0x3000))%N.

(** [s.strip()] *)
Definition strip (s : str) : str := strip_by isspace s.

(** [sep.join(parts)] *)
Fixpoint join (sep : str) (parts : list str) : str :=
  match parts with
  | [] => []
  | [p] => p
  | p :: rest => p ++ sep ++ join sep rest
  end.

(** [str(n)] for an [int]. *)
Definition str_of_int (n : Z) : str := lit (NilZero.string_of_int (Z.to_int n)).

(** [s[:n]]: a negative bound counts from the end. *)
Definition slice_to (n : Z) (s : str) : str :=
  if 0 <=? n then take (Z.to_nat n) s
  else take (Z.to_nat (Z.of_nat (length s) + n)) s.

(** Truth value of a [str | None]: [None] and [""] are falsy. *)
Definition truthy (s : option str) : bool :=
  match s with
  | Some (_ :: _) => true
  | _ => false
  end.

End PyStr.

(** ** Unicode data used by [_filter_name] *)

Module Unicode.
Import PyStr.

Definition between (lo hi c : N) : bool := ((lo <=? c) && (c <=? hi))%N.

(** [unicodedata.category(c) == "Cf"]: the code points whose general
    category is Cf (format) in the Unicode Character Database, 15.0. *)
Definition category_Cf (c : char) : bool :=
  ((c =? 0xad) || between 0x600 0x605 c || (c =? 0x61c) || (c =? 0x6dd)
   || (c =? 0x70f) || between 0x890 0x891 c || (c =? 0x8e2) || (c =? 0x180e)
   || between 0x200b 0x200f c || between 0x202a 0x202e c
   || between 0x2060 0x2064 c || between 0x2066 0x206f c
   || (c =? 0xfeff) || between 0xfff9 0xfffb c
   || (c =? 0x110bd) || (c =? 0x110cd) || between 0x13430 0x1343f c
   || between 0x1bca0 0x1bca3 c || between 0x1d173 0x1d17a c
   || (c =? 0xe0001) || between 0xe0020 0xe007f c)%N.

Definition ZWNJ : char := 0x200c%N.
Definition ZWJ : char := 0x200d%N.

End Unicode.

(** ** Exceptions and results of calls *)

Inductive Exn : Type :=
| MatrixError   (* mautrix.errors.MatrixError *)
| KeyError
| OtherException.   (* any other subclass of Exception *)

Inductive Outcome (A : Type) : Type :=
| Returns (a : A)
| Raises (e : Exn).
Arguments Returns {A} a.
Arguments Raises {A} e.

(** ** Records of the collaborators *)

(** [mautrix.util.simple_template.SimpleTemplate]: the template is cut at its
    placeholder into a prefix and a suffix when it is built. *)
Record SimpleTemplate : Type := {
  _prefix : PyStr.str;
  _suffix : PyStr.str
}.

Definition format_full (t : SimpleTemplate) (arg : PyStr.str) : PyStr.str :=
  _prefix t ++ arg ++ _suffix t.

(** The entries of [Config] the class reads. *)
Record Config : Type := {
  displayname_template : SimpleTemplate;      (* bridge.displayname_template *)
  displayname_preference : list string;       (* bridge.displayname_preference *)
  displayname_max_length : Z;                 (* bridge.displayname_max_length *)
  allow_avatar_remove : bool                  (* bridge.allow_avatar_remove *)
}.

Module tl.

(** [telethon.tl.types.UserProfilePhoto | UserProfilePhotoEmpty], [None], or
  anything else. *)
Inductive Photo : Type :=
| PhotoNone
| UserProfilePhotoEmpty
| UserProfilePhoto (photo_id : Z)
| PhotoUnknown.

(** [telethon.tl.types.User], the fields the class reads. *)
Record User : Type := {
id : Z;
first_name : option PyStr.str;
last_name : option PyStr.str;
username : option PyStr.str;
phone : option PyStr.str;
deleted : bool;
bot : bool;
contact : bool;
photo : Photo
}.

(** [telethon.tl.types.UpdateUserName]; it has no [contact] attribute. *)
Record UpdateUserName : Type := {
user_id : Z;
upd_first_name : PyStr.str;
upd_last_name : PyStr.str
}.

(** The argument [info: User | UpdateUserName] of [update_displayname]. *)
Inductive Info : Type :=
| a_User (u : User)
| an_UpdateUserName (u : UpdateUserName).

End tl.

(** ** AttributeResolver: [_filter_name] and [get_displayname] *)

Module Resolver.
Import PyStr Unicode.

Definition whitespace : str :=
  [0x09; 0x0a; 0x0d; 0x0b; 0x0c; 0x20;
   0xa0; 0x34f; 0x180e; 0x2063; 0x202f; 0x205f; 0x2800; 0x3000; 0x3164;
   0xfeff; 0x2000; 0x2001;
   0x2002; 0x2003; 0x2004; 0x2005; 0x2006; 0x2007; 0x2008; 0x2009; 0x200a;
   0x200b; 0x200c; 0x200d; 0x200e; 0x200f;
   0xfe0f]%N.

Definition allowed_other_format : str := [ZWJ; ZWNJ].

(** The generator's condition:
    [unicodedata.category(c) != "Cf" or c in allowed_other_format]. *)
Definition keeps (c : char) : bool :=
  negb (category_Cf c) || mem allowed_other_format c.

Definition _filter_name (name : option str) : str :=
  if negb (truthy name) then []
  else
    match name with
    | None => []
    | Some name => List.filter keeps (strip_chars whitespace name)
    end.

(** The dict [data] of [get_displayname], in the order it is written. *)
Definition data (info : tl.User) (fn ln : str) : list (string * option str) :=
  [ ("phone number"%string, tl.phone info);
    ("username"%string, tl.username info);
    ("full name"%string, Some (strip (join (lit " ") [fn; ln])));
    ("full name reversed"%string, Some (strip (join (lit " ") [ln; fn])));
    ("first name"%string, Some fn);
    ("last name"%string, Some ln) ].

(** [d[key]]; [None] stands for the [KeyError]. *)
Fixpoint getitem (d : list (string * option str)) (key : string)
  : option (option str) :=
  match d with
  | [] => None
  | (k, v) :: rest => if String.eqb k key then Some v else getitem rest key
  end.

(** The keys of [data]. *)
Definition preference_kinds : list string :=
  ["phone number"; "username"; "full name"; "full name reversed";
   "first name"; "last name"]%string.

(** The [for preference in preferences] loop, started with the current
    [name] and [quality]; it gives their values when the loop is left. *)
Fixpoint walk_preferences (d : list (string * option str))
    (preferences : list string) (name : option str) (quality : Z)
  : Outcome (option str * Z) :=
  match preferences with
  | [] => Returns (name, quality)
  | preference :: rest =>
      match getitem d preference with
      | None => Raises KeyError
      | Some name =>
          if truthy name then Returns (name, quality)
          else walk_preferences d rest name (quality - 1)
      end
  end.

Definition get_displayname (config : Config) (info : tl.User) (enable_format : bool)
  : Outcome (str * Z) :=
  let fn := _filter_name (tl.first_name info) in
  let ln := _filter_name (tl.last_name info) in
  match walk_preferences (data info fn ln) (displayname_preference config) None 99 with
  | Raises e => Raises e
  | Returns (name, quality) =>
      let '(name, quality) :=
        if tl.deleted info then
          (lit "Deleted account " ++ str_of_int (tl.id info), 99)
        else if negb (truthy name) then (str_of_int (tl.id info), 0)
        else (default [] name, quality) in
      Returns ((if enable_format
                then format_full (displayname_template config) name
                else name), quality)
  end.

End Resolver.

(** ** The row type, [mautrix_telegram/db/puppet.py] *)

Module db.

(** A value of [base_url]: the text of the column, which is what
    [__init__] is given, or the [yarl.URL] that [_from_row] builds from it.
    The [yarl] package is not part of these sources; a URL is kept here as
    the text it was built from. *)
Inductive BaseUrl : Type :=
| text (s : PyStr.str)
| URL (s : PyStr.str).

Record Puppet : Type := {
  id : Z;
  is_registered : bool;
  displayname : option PyStr.str;
  displayname_source : option Z;
  displayname_contact : bool;
  displayname_quality : Z;
  disable_updates : bool;
  username : option PyStr.str;
  photo_id : option PyStr.str;
  is_bot : option bool;
  custom_mxid : option PyStr.str;
  access_token : option PyStr.str;
  next_batch : option PyStr.str;
  base_url : option BaseUrl
}.

(** Attribute assignments, [self.<field> = v]. *)
Definition with_displayname (v : option PyStr.str) (p : Puppet) : Puppet :=
  {| id := id p; is_registered := is_registered p; displayname := v;
     displayname_source := displayname_source p;
     displayname_contact := displayname_contact p;
     displayname_quality := displayname_quality p;
     disable_updates := disable_updates p; username := username p;
     photo_id := photo_id p; is_bot := is_bot p; custom_mxid := custom_mxid p;
     access_token := access_token p; next_batch := next_batch p;
     base_url := base_url p |}.

Definition with_displayname_source (v : option Z) (p : Puppet) : Puppet :=
  {| id := id p; is_registered := is_registered p; displayname := displayname p;
     displayname_source := v;
     displayname_contact := displayname_contact p;
     displayname_quality := displayname_quality p;
     disable_updates := disable_updates p; username := username p;
     photo_id := photo_id p; is_bot := is_bot p; custom_mxid := custom_mxid p;
     access_token := access_token p; next_batch := next_batch p;
     base_url := base_url p |}.

Definition with_displayname_contact (v : bool) (p : Puppet) : Puppet :=
  {| id := id p; is_registered := is_registered p; displayname := displayname p;
     displayname_source := displayname_source p;
     displayname_contact := v;
     displayname_quality := displayname_quality p;
     disable_updates := disable_updates p; username := username p;
     photo_id := photo_id p; is_bot := is_bot p; custom_mxid := custom_mxid p;
     access_token := access_token p; next_batch := next_batch p;
     base_url := base_url p |}.

Definition with_displayname_quality (v : Z) (p : Puppet) : Puppet :=
  {| id := id p; is_registered := is_registered p; displayname := displayname p;
     displayname_source := displayname_source p;
     displayname_contact := displayname_contact p;
     displayname_quality := v;
     disable_updates := disable_updates p; username := username p;
     photo_id := photo_id p; is_bot := is_bot p; custom_mxid := custom_mxid p;
     access_token := access_token p; next_batch := next_batch p;
     base_url := base_url p |}.

Definition with_username (v : option PyStr.str) (p : Puppet) : Puppet :=
  {| id := id p; is_registered := is_registered p; displayname := displayname p;
     displayname_source := displayname_source p;
     displayname_contact := displayname_contact p;
     displayname_quality := displayname_quality p;
     disable_updates := disable_updates p; username := v;
     photo_id := photo_id p; is_bot := is_bot p; custom_mxid := custom_mxid p;
     access_token := access_token p; next_batch := next_batch p;
     base_url := base_url p |}.

Definition with_photo_id (v : option PyStr.str) (p : Puppet) : Puppet :=
  {| id := id p; is_registered := is_registered p; displayname := displayname p;
     displayname_source := displayname_source p;
     displayname_contact := displayname_contact p;
     displayname_quality := displayname_quality p;
     disable_updates := disable_updates p; username := username p;
     photo_id := v; is_bot := is_bot p; custom_mxid := custom_mxid p;
     access_token := access_token p; next_batch := next_batch p;
     base_url := base_url p |}.

Definition with_is_bot (v : option bool) (p : Puppet) : Puppet :=
  {| id := id p; is_registered := is_registered p; displayname := displayname p;
     displayname_source := displayname_source p;
     displayname_contact := displayname_contact p;
     displayname_quality := displayname_quality p;
     disable_updates := disable_updates p; username := username p;
     photo_id := photo_id p; is_bot := v; custom_mxid := custom_mxid p;
     access_token := access_token p; next_batch := next_batch p;
     base_url := base_url p |}.

Definition with_base_url (v : option BaseUrl) (p : Puppet) : Puppet :=
  {| id := id p; is_registered := is_registered p; displayname := displayname p;
     displayname_source := displayname_source p;
     displayname_contact := displayname_contact p;
     displayname_quality := displayname_quality p;
     disable_updates := disable_updates p; username := username p;
     photo_id := photo_id p; is_bot := is_bot p; custom_mxid := custom_mxid p;
     access_token := access_token p; next_batch := next_batch p;
     base_url := v |}.

End db.

(** [abstract_user.AbstractUser], the attributes of a source the class reads. *)
Module au.

Record AbstractUser : Type := {
  tgid : Z;
  is_relaybot : bool;
  is_bot : bool
}.

End au.

(** ** Calls to the collaborators, and their answers *)

(** What leaves the puppet: calls on the Matrix intent (the presentation
    layer), on the Telegram client of the source, and on the database. *)
Inductive Call : Type :=
| set_displayname (name : PyStr.str)          (* default_mxid_intent.set_displayname *)
| set_avatar_url (uri : PyStr.str)            (* default_mxid_intent.set_avatar_url *)
| get_entity (source user_id : Z)             (* source.client.get_entity(PeerUser) *)
| get_input_entity (source user_id : Z)       (* source.client.get_input_entity(self.peer) *)
| transfer_file_to_matrix (source photo_id : Z)  (* util.transfer_file_to_matrix *)
| save (row : db.Puppet).                     (* DBPuppet.save: UPDATE puppet ... *)

(** The answer of each collaborator to each call. *)
Record World : Type := {
  on_set_displayname : PyStr.str -> Outcome unit;
  on_set_avatar_url : PyStr.str -> Outcome unit;
  on_get_entity : Z -> Z -> Outcome tl.User;
  on_get_input_entity : Z -> Z -> Outcome unit;
  (* the file's [mxc] URI, or [None] *)
  on_transfer_file_to_matrix : Z -> Z -> Outcome (option PyStr.str);
  on_save : db.Puppet -> Outcome unit
}.

(** ** The monad of the methods *)

(** The puppet the method runs on, the local variable [changed] of
    [update_info], and the calls made so far, oldest first. Assignments made
    before an exception is raised stay. *)
Record Frame : Type := {
  self : db.Puppet;
  changed : bool;
  calls : list Call
}.

Definition M (A : Type) : Type := Frame -> Outcome A * Frame.

Definition ret {A} (a : A) : M A := fun st => (Returns a, st).

Definition raise {A} (e : Exn) : M A := fun st => (Raises e, st).

Definition bind {A B} (m : M A) (k : A -> M B) : M B :=
  fun st =>
    match m st with
    | (Returns a, st') => k a st'
    | (Raises e, st') => (Raises e, st')
    end.

Notation "'let!' x ':=' m 'in' k" := (bind m (fun x => k))
  (at level 10, x name, m at level 100, k at level 200).
Notation "m '>>' k" := (bind m (fun _ => k))
  (at level 90, right associativity).

Definition lift {A} (o : Outcome A) : M A := fun st => (o, st).

Definition get_self : M db.Puppet := fun st => (Returns (self st), st).

Definition assign (f : db.Puppet -> db.Puppet) : M unit :=
  fun st => (Returns tt, {| self := f (self st); changed := changed st; calls := calls st |}).

Definition get_changed : M bool := fun st => (Returns (changed st), st).

Definition set_changed (b : bool) : M unit :=
  fun st => (Returns tt, {| self := self st; changed := b; calls := calls st |}).

(** An awaited call: it is recorded, then the world answers. *)
Definition await {A} (c : Call) (answer : Outcome A) : M A :=
  fun st => (answer, {| self := self st; changed := changed st; calls := calls st ++ [c] |}).

(** [try: body except <catches>: handler] *)
Definition try_except {A} (body : M A) (catches : Exn -> bool) (handler : M A) : M A :=
  fun st =>
    match body st with
    | (Raises e, st') => if catches e then handler st' else (Raises e, st')
    | r => r
    end.

Definition is_MatrixError (e : Exn) : bool :=
  match e with MatrixError => true | _ => false end.

Definition is_Exception (e : Exn) : bool := true.

Definition when (c : bool) (m : M unit) : M unit := if c then m else ret tt.

(** ** Info updating: the methods of [Puppet] *)

Section InfoUpdating.
Import PyStr Resolver.

Variable world : World.
Variable config : Config.

(** Truth value of a [TelegramID | None]: [None] and [0] are falsy. *)
Definition truthy_id (i : option Z) : bool :=
  match i with
  | Some n => negb (n =? 0)
  | None => false
  end.

(** The [if]/[elif] chain at the head of [update_displayname]: the reason
    the update is allowed, or [None] where the chain ends in
    [return False]. *)
Definition allow_because (p : db.Puppet) (source : au.AbstractUser) (info : tl.Info)
  : option string :=
  if au.is_relaybot source || au.is_bot source then
    Some "user is bot"%string
  else if bool_decide (db.displayname_source p = Some (au.tgid source)) then
    Some "user is the primary source"%string
  else if match info with
          | tl.an_UpdateUserName _ => false
          | tl.a_User u => negb (tl.contact u)
          end then
    Some "user is not a contact"%string
  else if negb (truthy_id (db.displayname_source p)) then
    Some "no primary source set"%string
  else if negb (truthy (db.displayname p)) then
    Some "user has no name"%string
  else None.

(** [update_displayname] up to the call of [get_displayname]: the
    [disable_updates] guard, the eligibility chain, the fetch of the entity
    for an [UpdateUserName], and the contact tracking. It gives the reason
    and the [User] to resolve, or [None] where the method has returned
    [False]. *)
Definition displayname_eligibility (source : au.AbstractUser) (info : tl.Info)
  : M (option (string * tl.User)) :=
  let! p := get_self in
  if db.disable_updates p then ret None
  else
    match allow_because p source info with
    | None => ret None
    | Some because =>
        let! info :=
          match info with
          | tl.an_UpdateUserName _ =>
              await (get_entity (au.tgid source) (db.id p))
                    (on_get_entity world (au.tgid source) (db.id p))
          | tl.a_User u => ret u
          end in
        let! p := get_self in
        if negb (tl.contact info) then
          assign (db.with_displayname_contact false) >>
          ret (Some (because, info))
        else if negb (db.displayname_contact p) then
          if negb (truthy (db.displayname p)) then
            assign (db.with_displayname_contact true) >>
            ret (Some (because, info))
          else ret None
        else ret (Some (because, info))
    end.

(** [displayname != self.displayname and quality >= self.displayname_quality] *)
Definition overwrites (p : db.Puppet) (displayname : str) (quality : Z) : bool :=
  negb (bool_decide (Some displayname = db.displayname p))
  && (db.displayname_quality p <=? quality).

(** The rest of [update_displayname], from the call of [get_displayname]. *)
Definition displayname_commit (source : au.AbstractUser) (info : tl.User)
  : M bool :=
  let! candidate := lift (get_displayname config info true) in
  let '(displayname, quality) := candidate in
  let! p := get_self in
  if overwrites p displayname quality then
    assign (db.with_displayname (Some displayname)) >>
    assign (db.with_displayname_source (Some (au.tgid source))) >>
    assign (db.with_displayname_quality quality) >>
    try_except
      (let name := slice_to (displayname_max_length config) displayname in
       await (set_displayname name) (on_set_displayname world name))
      is_MatrixError
      (assign (db.with_displayname (Some [])) >>
       assign (db.with_displayname_source None) >>
       assign (db.with_displayname_quality 0)) >>
    ret true
  else if au.is_relaybot source || bool_decide (db.displayname_source p = None) then
    assign (db.with_displayname_source (Some (au.tgid source))) >>
    ret true
  else ret false.

Definition update_displayname (source : au.AbstractUser) (info : tl.Info) : M bool :=
  let! allowed := displayname_eligibility source info in
  match allowed with
  | None => ret false
  | Some (_, info) => displayname_commit source info
  end.

Definition update_avatar (source : au.AbstractUser) (photo : tl.Photo) : M bool :=
  let! p := get_self in
  if db.disable_updates p then ret false
  else
    match
      match photo with
      | tl.PhotoNone | tl.UserProfilePhotoEmpty => Some []
      | tl.UserProfilePhoto n => Some (str_of_int n)
      | tl.PhotoUnknown => None
      end
    with
    | None => ret false
    | Some photo_id =>
        if negb (truthy (Some photo_id)) && negb (allow_avatar_remove config) then
          ret false
        else if negb (bool_decide (db.photo_id p = Some photo_id)) then
          if negb (truthy (Some photo_id)) then
            assign (db.with_photo_id (Some [])) >>
            try_except
              (await (set_avatar_url []) (on_set_avatar_url world []))
              is_MatrixError
              (assign (db.with_photo_id (Some []))) >>
            ret true
          else
            match photo with
            | tl.UserProfilePhoto n =>
                let! _ := await (get_input_entity (au.tgid source) (db.id p))
                                (on_get_input_entity world (au.tgid source) (db.id p)) in
                let! file := await (transfer_file_to_matrix (au.tgid source) n)
                                   (on_transfer_file_to_matrix world (au.tgid source) n) in
                match file with
                | Some mxc =>
                    assign (db.with_photo_id (Some photo_id)) >>
                    try_except
                      (await (set_avatar_url mxc) (on_set_avatar_url world mxc))
                      is_MatrixError
                      (assign (db.with_photo_id (Some []))) >>
                    ret true
                | None => ret false
                end
            | _ => raise OtherException   (* photo.photo_id: AttributeError *)
            end
        else ret false
    end.

Definition update_info (source : au.AbstractUser) (info : tl.User) : M unit :=
  set_changed false >>
  let! p := get_self in
  when (negb (bool_decide (db.username p = tl.username info)))
       (assign (db.with_username (tl.username info)) >>
        set_changed true) >>
  let! p := get_self in
  when (negb (db.disable_updates p))
       (try_except
          (let! r := update_displayname source (tl.a_User info) in
           let! c := get_changed in
           set_changed (r || c) >>
           let! r := update_avatar source (tl.photo info) in
           let! c := get_changed in
           set_changed (r || c))
          is_Exception
          (ret tt)) >>
  assign (db.with_is_bot (Some (tl.bot info))) >>
  let! c := get_changed in
  when c (let! p := get_self in await (save p) (on_save world p)).

Definition try_update_info (source : au.AbstractUser) (info : tl.User) : M unit :=
  try_except (update_info source info) is_Exception (ret tt).

End InfoUpdating.

(** ** Getters: the identity cache *)

Module Cache.
Import PyStr.

(** The identity of a [Puppet] object: its position in [objects]. Two
    results are the same instance when they are the same [ref]. *)
Definition ref : Type := nat.

(** What a coroutine awaits: the lock of [async_getter_lock], and the two
    statements [DBPuppet] sends to [cls.db]. *)
Inductive Request : Type :=
| acquire (key : option Z)              (* cls._async_get_locks[args].acquire() *)
| fetchrow (tgid : Z)                   (* SELECT ... FROM puppet WHERE id=$1 *)
| execute_insert (row : db.Puppet).     (* INSERT INTO puppet ... *)

Inductive Answer : Type :=
| acquired
| fetched (row : option db.Puppet)
| executed
| failed (e : Exn).

(** The class attributes of [Puppet], the objects constructed so far, and
    the [puppet] table behind [cls.db] with the statements it has run. *)
Record Class : Type := {
  by_tgid : gmap Z ref;
  by_custom_mxid : gmap str ref;
  objects : list db.Puppet;
  _async_get_locks : gset (option Z);   (* the keys whose lock is held *)
  table : gmap Z db.Puppet;             (* primary key: id *)
  queries : list Request
}.

Definition with_caches (t : gmap Z ref) (m : gmap str ref) (c : Class) : Class :=
  {| by_tgid := t; by_custom_mxid := m; objects := objects c;
     _async_get_locks := _async_get_locks c; table := table c;
     queries := queries c |}.

Definition with_objects (o : list db.Puppet) (c : Class) : Class :=
  {| by_tgid := by_tgid c; by_custom_mxid := by_custom_mxid c; objects := o;
     _async_get_locks := _async_get_locks c; table := table c;
     queries := queries c |}.

Definition with_locks (l : gset (option Z)) (c : Class) : Class :=
  {| by_tgid := by_tgid c; by_custom_mxid := by_custom_mxid c;
     objects := objects c; _async_get_locks := l; table := table c;
     queries := queries c |}.

Definition with_table (t : gmap Z db.Puppet) (q : list Request) (c : Class) : Class :=
  {| by_tgid := by_tgid c; by_custom_mxid := by_custom_mxid c;
     objects := objects c; _async_get_locks := _async_get_locks c;
     table := t; queries := q |}.

(** A coroutine: it reads and writes the class attributes, and suspends at
    an [await] until the request is answered. *)
Inductive Prog (A : Type) : Type :=
| Ret (a : A)
| Raise (e : Exn)
| Get (k : Class -> Prog A)
| Put (c : Class) (k : Prog A)
| Await (r : Request) (k : Answer -> Prog A).
Arguments Ret {A} a.
Arguments Raise {A} e.
Arguments Get {A} k.
Arguments Put {A} c k.
Arguments Await {A} r k.

Fixpoint bind {A B} (p : Prog A) (f : A -> Prog B) : Prog B :=
  match p with
  | Ret a => f a
  | Raise e => Raise e
  | Get k => Get (fun c => bind (k c) f)
  | Put c k => Put c (bind k f)
  | Await r k => Await r (fun a => bind (k a) f)
  end.

Notation "'let*' x ':=' m 'in' k" := (bind m (fun x => k))
  (at level 10, x name, m at level 100, k at level 200).
Notation "m '>>>' k" := (bind m (fun _ => k))
  (at level 90, right associativity).

(** [try: p finally: cleanup] *)
Fixpoint finally {A} (p : Prog A) (cleanup : Prog unit) : Prog A :=
  match p with
  | Ret a => cleanup >>> Ret a
  | Raise e => cleanup >>> Raise e
  | Get k => Get (fun c => finally (k c) cleanup)
  | Put c k => Put c (finally k cleanup)
  | Await r k => Await r (fun a => finally (k a) cleanup)
  end.

Definition modify (f : Class -> Class) : Prog unit :=
  Get (fun c => Put (f c) (Ret tt)).

(** [asyncio.Lock.release] *)
Definition release (key : option Z) : Prog unit :=
  modify (fun c => with_locks (_async_get_locks c ∖ {[key]}) c).

(** Modelled from the spec: the decorator [async_getter_lock] comes from
    [mautrix.bridge] and is not part of these sources. The spec describes it
    as a lock keyed by the account id, one per key with no shared lock, held
    over the whole lookup, load-or-create and cache insert, and released
    unconditionally on all exit paths, exceptions included. The key is the
    positional argument of the call. *)
Definition async_getter_lock {A} (args : option Z) (fn : Prog A) : Prog A :=
  Await (acquire args) (fun _ => finally fn (release args)).

(** [await cls.db.fetchrow(q, tgid)] *)
Definition db_fetchrow (tgid : Z) : Prog (option db.Puppet) :=
  Await (fetchrow tgid)
        (fun a => match a with
                  | fetched row => Ret row
                  | failed e => Raise e
                  | _ => Raise OtherException
                  end).

(** [await self.db.execute(q, *self._values)] of [DBPuppet.insert] *)
Definition db_execute_insert (values : db.Puppet) : Prog unit :=
  Await (execute_insert values)
        (fun a => match a with
                  | executed => Ret tt
                  | failed e => Raise e
                  | _ => Raise OtherException
                  end).

(** [self.by_tgid[id] = self] and, with a custom mxid,
    [self.by_custom_mxid[self.custom_mxid] = self]. *)
Definition cache (values : db.Puppet) (self : ref) (c : Class) : Class :=
  with_caches (<[db.id values := self]> (by_tgid c))
              (match db.custom_mxid values with
               | Some mxid =>
                   if truthy (Some mxid) then <[mxid := self]> (by_custom_mxid c)
                   else by_custom_mxid c
               | None => by_custom_mxid c
               end) c.

(** [Puppet.__init__]: the new object enters both maps at once. *)
Definition __init__ (values : db.Puppet) : Prog ref :=
  Get (fun c =>
    let self := length (objects c) in
    Put (cache values self (with_objects (objects c ++ [values]) c)) (Ret self)).

(** The defaults of [Puppet.__init__], for [cls(tgid)]. *)
Definition new_puppet (tgid : Z) : db.Puppet :=
  {| db.id := tgid; db.is_registered := false; db.displayname := None;
     db.displayname_source := None; db.displayname_contact := true;
     db.displayname_quality := 0; db.disable_updates := false;
     db.username := None; db.photo_id := None; db.is_bot := Some false;
     db.custom_mxid := None; db.access_token := None; db.next_batch := None;
     db.base_url := None |}.

(** Reads the attributes of the object [self]. *)
Definition values_of (self : ref) : Prog db.Puppet :=
  Get (fun c => match objects c !! self with
                | Some values => Ret values
                | None => Raise OtherException
                end).

Definition _add_to_cache (self : ref) : Prog unit :=
  let* values := values_of self in
  modify (cache values self).

(** Truth value of a [base_url]: that of its text. *)
Definition truthy_url (v : option db.BaseUrl) : bool :=
  match v with
  | Some (db.text s) | Some (db.URL s) => truthy (Some s)
  | None => false
  end.

(** [DBPuppet._values]: the attributes in the order of the columns, with
    [str(self.base_url) if self.base_url else None] for the last. *)
Definition _values (p : db.Puppet) : db.Puppet :=
  db.with_base_url
    (if truthy_url (db.base_url p) then
       match db.base_url p with
       | Some (db.text s) | Some (db.URL s) => Some (db.text s)
       | None => None
       end
     else None) p.

Definition insert (self : ref) : Prog unit :=
  let* values := values_of self in
  db_execute_insert (_values values).

(** The arguments [_from_row] passes to the constructor: the columns of
    the row, with [URL(base_url) if base_url else None] for [base_url]. *)
Definition row_arguments (data : db.Puppet) : db.Puppet :=
  db.with_base_url
    (if truthy_url (db.base_url data) then
       match db.base_url data with
       | Some (db.text s) | Some (db.URL s) => Some (db.URL s)
       | None => None
       end
     else None) data.

(** [DBPuppet._from_row], called on the subclass: [None] for no row;
    otherwise the constructor of [Puppet] is called with the columns of the
    row, [base_url] converted. *)
Definition _from_row (row : option db.Puppet) : Prog (option ref) :=
  match row with
  | None => Ret None
  | Some data => let* puppet := __init__ (row_arguments data) in Ret (Some puppet)
  end.

(** [DBPuppet.get_by_tgid], the [super().get_by_tgid] of the getter. *)
Definition super_get_by_tgid (tgid : Z) : Prog (option ref) :=
  let* row := db_fetchrow tgid in
  _from_row row.

(** The body of [Puppet.get_by_tgid] from the store lookup on. *)
Definition load_or_create (tgid : Z) (create : bool) : Prog (option ref) :=
  let* puppet := super_get_by_tgid tgid in
  match puppet with
  | Some puppet =>
      _add_to_cache puppet >>>
      Ret (Some puppet)
  | None =>
      if create then
        let* puppet := __init__ (new_puppet tgid) in
        insert puppet >>>
        _add_to_cache puppet >>>
        Ret (Some puppet)
      else Ret None
  end.

(** [Puppet.get_by_tgid] under its decorator. *)
Definition get_by_tgid (tgid : option Z) (create : bool) : Prog (option ref) :=
  async_getter_lock tgid
    match tgid with
    | None => Ret None
    | Some tgid =>
        Get (fun c =>
          match by_tgid c !! tgid with
          | Some puppet => Ret (Some puppet)
          | None => load_or_create tgid create
          end)
    end.

(** *** The event loop and the database *)

(** How a request is answered in a state of the class. The lock of a key
    is granted when no task holds it; while it is held the request gets no
    answer and the task stays suspended. The table answers every
    statement; an [INSERT] of a key that is present fails. *)
Definition serve (r : Request) (c : Class) : option (Answer * Class) :=
  match r with
  | acquire key =>
      if bool_decide (key ∈ _async_get_locks c) then None
      else Some (acquired, with_locks ({[key]} ∪ _async_get_locks c) c)
  | fetchrow tgid =>
      Some (fetched (table c !! tgid), with_table (table c) (queries c ++ [r]) c)
  | execute_insert row =>
      match table c !! db.id row with
      | Some _ => Some (failed OtherException, with_table (table c) (queries c ++ [r]) c)
      | None => Some (executed, with_table (<[db.id row := row]> (table c)) (queries c ++ [r]) c)
      end
  end.

(** A task runs without interruption up to its next [await] or its end. *)
Fixpoint sync {A} (p : Prog A) (c : Class) : Prog A * Class :=
  match p with
  | Get k => sync (k c) c
  | Put c' k => sync k c'
  | _ => (p, c)
  end.

(** One task alone, to its end; [None] when it waits for a lock that is
    never released. *)
Fixpoint run {A} (p : Prog A) (c : Class) : option (Outcome A * Class) :=
  match p with
  | Ret a => Some (Returns a, c)
  | Raise e => Some (Raises e, c)
  | Get k => run (k c) c
  | Put c' k => run k c'
  | Await r k =>
      match serve r c with
      | Some (a, c') => run (k a) c'
      | None => None
      end
  end.

Definition is_await {A} (p : Prog A) : bool :=
  match p with Await _ _ => true | _ => false end.

Definition is_final {A} (p : Prog A) : bool :=
  match p with Ret _ | Raise _ => true | _ => false end.

(** One step of the event loop on the tasks: either the request of a
    suspended task is answered, or a task that has its answer is resumed
    and runs to its next suspension. Any task that can move may be the
    next to move. *)
Inductive step {A} : Class * list (Prog A) -> Class * list (Prog A) -> Prop :=
| step_answer c tasks i r k a c' :
    tasks !! i = Some (Await r k) ->
    serve r c = Some (a, c') ->
    step (c, tasks) (c', <[i := k a]> tasks)
| step_resume c tasks i p p' c' :
    tasks !! i = Some p ->
    is_await p = false -> is_final p = false ->
    sync p c = (p', c') ->
    step (c, tasks) (c', <[i := p']> tasks).

(** [n] steps. *)
Inductive steps {A} : nat -> Class * list (Prog A) -> Class * list (Prog A) -> Prop :=
| steps_O s : steps O s s
| steps_S n s1 s2 s3 : step s1 s2 -> steps n s2 s3 -> steps (S n) s1 s3.

End Cache.

(** ** The tasks of [get_by_tgid] for one account id *)

Module Coalescing.
Import Cache.

(** Where a task running [get_by_tgid(tgid)] with [create] left at [True]
    can be: before the lock, in the critical section before the cache
    lookup, suspended in [fetchrow], resumed with the row, suspended in the
    [INSERT] of the new puppet, resumed after it, and returned. *)
Inductive Shape : Type :=
| Waiting
| Entered
| Fetching
| Fetched (row : option db.Puppet)
| Inserting (self : ref)
| Inserted (self : ref)
| Done (self : ref).

(** The rest of a suspended coroutine once its request is answered. *)
Definition resume {A} (p : Prog A) (a : Answer) : Prog A :=
  match p with
  | Await _ k => k a
  | _ => p
  end.

(** The coroutine a task in a given shape still has to run. *)
Definition prog (tgid : Z) (s : Shape) : Prog (option ref) :=
  match s with
  | Waiting => get_by_tgid (Some tgid) true
  | Entered => resume (get_by_tgid (Some tgid) true) acquired
  | Fetching => finally (load_or_create tgid true) (release (Some tgid))
  | Fetched row =>
      resume (finally (load_or_create tgid true) (release (Some tgid))) (fetched row)
  | Inserting self =>
      finally (db_execute_insert (new_puppet tgid) >>>
               _add_to_cache self >>>
               Ret (Some self))
              (release (Some tgid))
  | Inserted self =>
      resume (finally (db_execute_insert (new_puppet tgid) >>>
                       _add_to_cache self >>>
                       Ret (Some self))
                      (release (Some tgid)))
             executed
  | Done self => Ret (Some self)
  end.

(** The number of steps a task in a given shape can still take. *)
Definition weight (s : Shape) : nat :=
  match s with
  | Waiting => 6
  | Entered => 5
  | Fetching => 4
  | Fetched _ => 3
  | Inserting _ => 2
  | Inserted _ => 1
  | Done _ => 0
  end.

Definition total (shapes : list Shape) : nat := sum_list (weight <$> shapes).

Section Invariant.
Variable tgid : Z.
Variable c0 : Class.   (* the class when the requests are made *)

(** The statements the table has run once the puppet is loaded or created. *)
Definition loaded_queries : list Request :=
  queries c0 ++ fetchrow tgid ::
  match table c0 !! tgid with
  | Some _ => []
  | None => [execute_insert (new_puppet tgid)]
  end.

(** Nothing has been loaded yet. *)
Definition cold (c : Class) : Prop :=
  by_tgid c !! tgid = None
  /\ table c !! tgid = table c0 !! tgid
  /\ queries c = queries c0.

(** The puppet [r] is cached, after one load-or-create. *)
Definition warm (c : Class) (r : ref) : Prop :=
  by_tgid c !! tgid = Some r /\ queries c = loaded_queries.

(** What holds of the class while a task in shape [s] holds the lock. *)
Definition holder_ok (c : Class) (s : Shape) : Prop :=
  match s with
  | Entered => cold c \/ exists r, warm c r
  | Fetching => cold c
  | Fetched row =>
      row = table c0 !! tgid
      /\ by_tgid c !! tgid = None
      /\ table c !! tgid = table c0 !! tgid
      /\ queries c = queries c0 ++ [fetchrow tgid]
  | Inserting r =>
      table c0 !! tgid = None
      /\ table c !! tgid = None
      /\ by_tgid c !! tgid = Some r
      /\ objects c !! r = Some (new_puppet tgid)
      /\ queries c = queries c0 ++ [fetchrow tgid]
  | Inserted r =>
      table c0 !! tgid = None
      /\ by_tgid c !! tgid = Some r
      /\ objects c !! r = Some (new_puppet tgid)
      /\ queries c
         = queries c0 ++ [fetchrow tgid; execute_insert (new_puppet tgid)]
  | Waiting | Done _ => False
  end.

(** A task that does not hold the lock has not started, or has returned
    the cached puppet. *)
Definition idle_ok (c : Class) (s : Shape) : Prop :=
  s = Waiting \/ exists r, s = Done r /\ warm c r.

(** The invariant of the tasks: at most one of them, [holder], is inside
    the critical section. *)
Definition Inv (c : Class) (shapes : list Shape) : Prop :=
  _async_get_locks c ⊆ {[Some tgid]} ∪ _async_get_locks c0
  /\ (forall row, table c0 !! tgid = Some row -> db.id row = tgid)
  /\ exists holder : option nat,
       match holder with
       | Some i =>
           Some tgid ∈ _async_get_locks c
           /\ exists s, shapes !! i = Some s /\ holder_ok c s
       | None =>
           (Some tgid ∉ _async_get_locks c)
           /\ (cold c \/ exists r, warm c r)
       end
       /\ forall j s, shapes !! j = Some s -> holder <> Some j -> idle_ok c s.

End Invariant.

End Coalescing.

(** ** Concrete configurations, profiles and puppets *)

Module Fixtures.
Import PyStr.

(** The settings of the example configuration:
    [displayname_template: "{displayname} (Telegram)"]. *)
Definition config : Config := {|
  displayname_template := {| _prefix := []; _suffix := lit " (Telegram)" |};
  displayname_preference := ["full name"; "username"; "phone number"]%string;
  displayname_max_length := 100;
  allow_avatar_remove := false
|}.

(** The same with a preference that is not a key of [data]. *)
Definition config_unknown_preference : Config := {|
  displayname_template := displayname_template config;
  displayname_preference := ["nickname"; "full name"]%string;
  displayname_max_length := 100;
  allow_avatar_remove := false
|}.

(** [" \u200b Alice\u200d "] *)
Definition alice_padded : str :=
  [0x20; 0x200b; 0x20]%N ++ lit "Alice" ++ [0x200d; 0x20]%N.

Definition alice (is_contact is_deleted : bool) (avatar : tl.Photo) : tl.User := {|
  tl.id := 42;
  tl.first_name := Some (lit "Alice");
  tl.last_name := None;
  tl.username := Some (lit "alice");
  tl.phone := None;
  tl.deleted := is_deleted;
  tl.bot := false;
  tl.contact := is_contact;
  tl.photo := avatar
|}.

(** A puppet of account 42 with the given name, source and quality. *)
Definition puppet (name : option str) (source : option Z) (quality : Z)
    (avatar : option str) : db.Puppet := {|
  db.id := 42; db.is_registered := true;
  db.displayname := name; db.displayname_source := source;
  db.displayname_contact := true; db.displayname_quality := quality;
  db.disable_updates := false; db.username := Some (lit "alice");
  db.photo_id := avatar; db.is_bot := Some false;
  db.custom_mxid := None; db.access_token := None; db.next_batch := None;
  db.base_url := None
|}.

Definition frame (p : db.Puppet) : Frame :=
  {| self := p; changed := false; calls := [] |}.

(** An ordinary user, a user logged in as a bot, and the relay bot. *)
Definition user_7 : au.AbstractUser :=
  {| au.tgid := 7; au.is_relaybot := false; au.is_bot := false |}.
Definition bot_user_7 : au.AbstractUser :=
  {| au.tgid := 7; au.is_relaybot := false; au.is_bot := true |}.
Definition relaybot_7 : au.AbstractUser :=
  {| au.tgid := 7; au.is_relaybot := true; au.is_bot := true |}.

(** A world where every call succeeds, except that [set_displayname]
    answers with [displayname_answer]. *)
Definition world (displayname_answer : Outcome unit) : World := {|
  on_set_displayname := fun _ => displayname_answer;
  on_set_avatar_url := fun _ => Returns tt;
  on_get_entity := fun _ _ => Returns (alice true false tl.PhotoNone);
  on_get_input_entity := fun _ _ => Returns tt;
  on_transfer_file_to_matrix := fun _ _ => Returns (Some (lit "mxc://example.org/abc"));
  on_save := fun _ => Returns tt
|}.

(** A class with nothing cached, no lock held and an empty table. *)
Definition empty_class : Cache.Class := {|
  Cache.by_tgid := ∅; Cache.by_custom_mxid := ∅; Cache.objects := [];
  Cache._async_get_locks := ∅; Cache.table := ∅; Cache.queries := []
|}.

End Fixtures.

(** ** Further profiles and class states *)

Module Scenarios.
Import PyStr.

(** A profile with a username and a phone number but no name. *)
Definition nameless : tl.User := {|
  tl.id := 42;
  tl.first_name := None;
  tl.last_name := Some [];
  tl.username := Some (lit "alice");
  tl.phone := Some (lit "4915112345678");
  tl.deleted := false;
  tl.bot := false;
  tl.contact := false;
  tl.photo := tl.PhotoNone
|}.

(** A profile with nothing but its id. *)
Definition anonymous : tl.User := {|
  tl.id := 42;
  tl.first_name := None;
  tl.last_name := None;
  tl.username := None;
  tl.phone := None;
  tl.deleted := false;
  tl.bot := false;
  tl.contact := false;
  tl.photo := tl.PhotoNone
|}.

(** The example configuration with avatar removal allowed. *)
Definition config_removal : Config := {|
  displayname_template := displayname_template Fixtures.config;
  displayname_preference := displayname_preference Fixtures.config;
  displayname_max_length := displayname_max_length Fixtures.config;
  allow_avatar_remove := true
|}.

(** The row of account 42 as a bridge that knows the account has stored
    it. *)
Definition stored_row : db.Puppet :=
  Fixtures.puppet (Some (PyStr.lit "Alice (Telegram)")) (Some 7) 99 None.

(** A class after a start: nothing cached, and the row of account 42 in the
    table. *)
Definition stored_class : Cache.Class := {|
  Cache.by_tgid := ∅; Cache.by_custom_mxid := ∅; Cache.objects := [];
  Cache._async_get_locks := ∅; Cache.table := {[ 42 := stored_row ]};
  Cache.queries := []
|}.

(** The same with the puppet of account 42 loaded. *)
Definition cached_class : Cache.Class := {|
  Cache.by_tgid := {[ 42 := 0%nat ]}; Cache.by_custom_mxid := ∅;
  Cache.objects := [stored_row];
  Cache._async_get_locks := ∅; Cache.table := {[ 42 := stored_row ]};
  Cache.queries := [Cache.fetchrow 42]
|}.

(** A puppet whose updates are disabled. *)
Definition frozen : db.Puppet := {|
  db.id := 42; db.is_registered := true;
  db.displayname := Some (lit "Bob"); db.displayname_source := Some 5;
  db.displayname_contact := true; db.displayname_quality := 50;
  db.disable_updates := true; db.username := Some (lit "alice");
  db.photo_id := None; db.is_bot := Some false;
  db.custom_mxid := None; db.access_token := None; db.next_batch := None;
  db.base_url := None
|}.

End Scenarios.

(** ** Which fields of a puppet two states share *)

(** [p'] differs from [p] at most in the four display-name fields. *)
Definition same_outside_displayname (p p' : db.Puppet) : Prop :=
  db.id p' = db.id p
  /\ db.is_registered p' = db.is_registered p
  /\ db.disable_updates p' = db.disable_updates p
  /\ db.username p' = db.username p
  /\ db.photo_id p' = db.photo_id p
  /\ db.is_bot p' = db.is_bot p
  /\ db.custom_mxid p' = db.custom_mxid p
  /\ db.access_token p' = db.access_token p
  /\ db.next_batch p' = db.next_batch p
  /\ db.base_url p' = db.base_url p.

(** [p'] differs from [p] at most in [photo_id]. *)
Definition same_outside_photo (p p' : db.Puppet) : Prop :=
  db.id p' = db.id p
  /\ db.is_registered p' = db.is_registered p
  /\ db.displayname p' = db.displayname p
  /\ db.displayname_source p' = db.displayname_source p
  /\ db.displayname_contact p' = db.displayname_contact p
  /\ db.displayname_quality p' = db.displayname_quality p
  /\ db.disable_updates p' = db.disable_updates p
  /\ db.username p' = db.username p
  /\ db.is_bot p' = db.is_bot p
  /\ db.custom_mxid p' = db.custom_mxid p
  /\ db.access_token p' = db.access_token p
  /\ db.next_batch p' = db.next_batch p
  /\ db.base_url p' = db.base_url p.

(** The calls each sub-update may make. *)
Definition displayname_call (c : Call) : Prop :=
  match c with
  | get_entity _ _ | set_displayname _ => True
  | _ => False
  end.

Definition avatar_call (c : Call) : Prop :=
  match c with
  | get_input_entity _ _ | transfer_file_to_matrix _ _ | set_avatar_url _ => True
  | _ => False
  end.


(** [p'] agrees with [p] on the fields no sub-update of [update_info]
    assigns. *)
Definition same_identity (p p' : db.Puppet) : Prop :=
  db.id p' = db.id p
  /\ db.is_registered p' = db.is_registered p
  /\ db.disable_updates p' = db.disable_updates p
  /\ db.custom_mxid p' = db.custom_mxid p
  /\ db.access_token p' = db.access_token p
  /\ db.next_batch p' = db.next_batch p
  /\ db.base_url p' = db.base_url p.

(** A step of a method that keeps the fields related by [same], leaves the
    local [changed] alone, and adds only calls that satisfy [allowed]. *)
Definition frame_step (same : db.Puppet -> db.Puppet -> Prop)
    (allowed : Call -> Prop) (st st' : Frame) : Prop :=
  same (self st) (self st')
  /\ changed st' = changed st
  /\ exists added, calls st' = calls st ++ added /\ Forall allowed added.

(** Whatever [m] returns or raises, the frame it leaves is related by [R]
    to the one it started from. *)
Definition preserves (R : Frame -> Frame -> Prop) {A} (m : M A) : Prop :=
  forall st r st', m st = (r, st') -> R st st'.

(** A step inside the guarded block of [update_info]: the identity fields,
    the username and [is_bot] stay, and only calls of the two sub-updates
    are added. The local [changed] may be set. *)
Definition info_step (st st' : Frame) : Prop :=
  same_identity (self st) (self st')
  /\ db.username (self st') = db.username (self st)
  /\ db.is_bot (self st') = db.is_bot (self st)
  /\ exists added,
       calls st' = calls st ++ added
       /\ Forall (fun c => displayname_call c \/ avatar_call c) added.

(** Whether a sub-update of [update_info] reports a change: the result of
    [update_displayname], run once the username has been taken over, or
    that of [update_avatar], run from the state [update_displayname] left.
    A sub-update that raises reports nothing and ends the block; with
    [disable_updates] set neither runs. *)
Definition sub_updates_reported (world : World) (config : Config)
    (source : au.AbstractUser) (info : tl.User) (st : Frame) : bool :=
  let st1 :=
    {| self := if bool_decide (db.username (self st) = tl.username info)
               then self st
               else db.with_username (tl.username info) (self st);
       changed := negb (bool_decide (db.username (self st) = tl.username info));
       calls := calls st |} in
  if db.disable_updates (self st1) then false
  else
    match update_displayname world config source (tl.a_User info) st1 with
    | (Returns named, st2) =>
        match update_avatar world config source (tl.photo info)
                {| self := self st2; changed := named || changed st2;
                   calls := calls st2 |} with
        | (Returns pictured, _) => named || pictured
        | (Raises _, _) => named
        end
    | (Raises _, _) => false
    end.

(** ** The class across a restart, and its consistency *)

(** A restart of the bridge: the class attributes and the objects are
    gone, the table and the statements it has run stay. *)
Definition restart (c : Cache.Class) : Cache.Class := {|
  Cache.by_tgid := ∅; Cache.by_custom_mxid := ∅; Cache.objects := [];
  Cache._async_get_locks := ∅; Cache.table := Cache.table c;
  Cache.queries := Cache.queries c
|}.

(** Every entry of [by_tgid] leads to an object with that id. *)
Definition cache_consistent (c : Cache.Class) : Prop :=
  forall t r, Cache.by_tgid c !! t = Some r ->
    exists values, Cache.objects c !! r = Some values /\ db.id values = t.

(** Every row of the table is stored under its id. *)
Definition table_keyed (c : Cache.Class) : Prop :=
  forall t row, Cache.table c !! t = Some row -> db.id row = t.

(** ** Tasks inside the critical section of [get_by_tgid] *)

(** A task that called [get_by_tgid(tgid)] is inside the [async with] block
    of the decorator when it has got past the acquisition of the lock and
    has not returned or raised yet. *)
Definition in_critical_section (tgid : Z) (p : Cache.Prog (option Cache.ref))
    : Prop :=
  p <> Cache.get_by_tgid (Some tgid) true /\ Cache.is_final p = false.

Import PyStr Unicode Resolver.

(** * Properties *)

(** ** Name normalization *)

Section Strip.
Variable drop : char -> bool.

Lemma lstrip_by_split (s : str) :
  exists pre, s = pre ++ lstrip_by drop s /\ Forall (fun c => drop c = true) pre.
Proof.
  induction s as [|c s IH]; simpl.
  - exists []. split; [reflexivity | constructor].
  - destruct (drop c) eqn:Hc.
    + destruct IH as (pre & Hs & Hpre).
      exists (c :: pre). split.
      * simpl. f_equal. exact Hs.
      * constructor; assumption.
    + exists []. split; [reflexivity | constructor].
Qed.

Lemma lstrip_by_head (s : str) c rest :
  lstrip_by drop s = c :: rest -> drop c = false.
Proof.
  induction s as [|d s IH]; simpl; [discriminate|].
  destruct (drop d) eqn:Hd; [exact IH|].
  intros [= <- _]. exact Hd.
Qed.

Lemma rstrip_by_split (s : str) :
  exists post, s = rstrip_by drop s ++ post /\ Forall (fun c => drop c = true) post.
Proof.
  unfold rstrip_by.
  destruct (lstrip_by_split (rev s)) as (pre & Hs & Hpre).
  exists (rev pre). split.
  - rewrite <- rev_app_distr, <- Hs, rev_involutive. reflexivity.
  - apply Forall_rev. exact Hpre.
Qed.

Lemma rstrip_by_last (s : str) c front :
  rstrip_by drop s = front ++ [c] -> drop c = false.
Proof.
  unfold rstrip_by. intros H.
  apply (f_equal (@rev char)) in H.
  rewrite rev_involutive, rev_app_distr in H. simpl in H.
  eapply lstrip_by_head. exact H.
Qed.

Lemma rstrip_by_head (s : str) c rest :
  rstrip_by drop s = c :: rest -> exists rest', s = c :: rest'.
Proof.
  intros H. destruct (rstrip_by_split s) as (post & Hs & _).
  rewrite H in Hs. simpl in Hs. eauto.
Qed.

(** [strip] removes a run of dropped characters at each end, and what is
    left neither starts nor ends with one. *)
Lemma strip_by_spec (s : str) :
  exists pre post,
    s = pre ++ strip_by drop s ++ post
    /\ Forall (fun c => drop c = true) pre
    /\ Forall (fun c => drop c = true) post
    /\ (forall c rest, strip_by drop s = c :: rest -> drop c = false)
    /\ (forall c front, strip_by drop s = front ++ [c] -> drop c = false).
Proof.
  unfold strip_by.
  destruct (lstrip_by_split s) as (pre & Hs & Hpre).
  destruct (rstrip_by_split (lstrip_by drop s)) as (post & Hl & Hpost).
  exists pre, post. repeat split; try assumption.
  - rewrite <- Hl. exact Hs.
  - intros c rest H.
    destruct (rstrip_by_head _ _ _ H) as (rest' & Hr).
    eapply lstrip_by_head. exact Hr.
  - intros c front H. eapply rstrip_by_last. exact H.
Qed.

End Strip.

Lemma keeps_spec c :
  keeps c = negb (category_Cf c) || (c =? ZWJ)%N || (c =? ZWNJ)%N.
Proof.
  unfold keeps, allowed_other_format, mem. cbn [existsb].
  rewrite orb_false_r, orb_assoc. reflexivity.
Qed.

Lemma filter_name_some (name : str) :
  _filter_name (Some name) = List.filter keeps (strip_chars whitespace name).
Proof. destruct name; reflexivity. Qed.

Lemma filter_name_format_chars (name : option str) c :
  In c (_filter_name name) -> category_Cf c = true -> c = ZWJ \/ c = ZWNJ.
Proof.
  destruct name as [name|]; [|intros []].
  rewrite filter_name_some. intros Hin Hcf.
  apply List.filter_In in Hin. destruct Hin as [_ Hk].
  rewrite keeps_spec, Hcf in Hk. simpl in Hk.
  apply orb_true_iff in Hk. destruct Hk as [Hk|Hk]; apply N.eqb_eq in Hk; auto.
Qed.

(** C5, as the claim states it: the padded name does not normalize to
    ["Alice\u200d"]. *)
Lemma filter_name_keeps_trailing_joiner_counterexample :
  _filter_name (Some Fixtures.alice_padded) <> lit "Alice" ++ [ZWJ].
Proof. vm_compute. discriminate. Qed.

(** C5, amended: [" \u200b Alice\u200d "] normalizes to ["Alice"]. The set
    stripped from both ends contains the zero-width joiner and non-joiner,
    so they go with the whitespace and the zero-width space there; what is
    stripped is a run of characters of the set at each end, and the rest
    neither starts nor ends with one. From the rest every Cf character is
    dropped except the zero-width joiner and non-joiner, and nothing else
    is: the two are kept inside a name only. *)
Theorem filter_name_strips_then_drops_format :
  _filter_name (Some Fixtures.alice_padded) = lit "Alice"
  /\ mem whitespace ZWJ = true /\ mem whitespace ZWNJ = true
  /\ _filter_name (Some (lit "A" ++ [ZWJ] ++ lit "B")) = lit "A" ++ [ZWJ] ++ lit "B"
  /\ (forall name : str, exists pre post,
        name = pre ++ strip_chars whitespace name ++ post
        /\ Forall (fun c => mem whitespace c = true) pre
        /\ Forall (fun c => mem whitespace c = true) post
        /\ (forall c rest, strip_chars whitespace name = c :: rest -> mem whitespace c = false)
        /\ (forall c front, strip_chars whitespace name = front ++ [c] -> mem whitespace c = false))
  /\ (forall name : str,
        _filter_name (Some name) =
        List.filter (fun c => negb (category_Cf c) || (c =? ZWJ)%N || (c =? ZWNJ)%N)
                    (strip_chars whitespace name))
  /\ (forall (name : option str) c,
        In c (_filter_name name) -> category_Cf c = true -> c = ZWJ \/ c = ZWNJ).
Proof.
  split; [reflexivity|].
  split; [reflexivity|].
  split; [reflexivity|].
  split; [reflexivity|].
  split; [intros name; apply strip_by_spec|].
  split; [|exact filter_name_format_chars].
  intros name. rewrite filter_name_some.
  apply List.filter_ext. exact keeps_spec.
Qed.

(** ** Display-name resolution *)

Lemma getitem_known (info : tl.User) (fn ln : str) (preference : string) :
  In preference preference_kinds ->
  exists value, getitem (data info fn ln) preference = Some value.
Proof.
  unfold preference_kinds. simpl.
  intros [<-|[<-|[<-|[<-|[<-|[<-|[]]]]]]]; simpl; eauto.
Qed.

(** With keys of [data] only, the loop is left normally. *)
Lemma walk_preferences_known (info : tl.User) (fn ln : str) preferences :
  Forall (fun preference => In preference preference_kinds) preferences ->
  forall name quality,
  exists name' quality',
    walk_preferences (data info fn ln) preferences name quality
    = Returns (name', quality').
Proof.
  induction 1 as [|preference rest Hk _ IH]; intros name quality.
  - simpl. eauto.
  - destruct (getitem_known info fn ln preference Hk) as (value & Hv).
    cbn [walk_preferences]. rewrite Hv.
    destruct (truthy value); [eauto | apply IH].
Qed.

(** C6, as the claim states it: with the template of the example
    configuration the name returned for a deleted account is
    ["Deleted account 42 (Telegram)"], and with a preference that is not a
    key of [data] the method raises [KeyError] before it looks at
    [deleted]. *)
Lemma deleted_account_exact_name_counterexample :
  get_displayname Fixtures.config (Fixtures.alice true true tl.PhotoNone) true
  = Returns (lit "Deleted account 42 (Telegram)", 99)
  /\ get_displayname Fixtures.config (Fixtures.alice true true tl.PhotoNone) true
     <> Returns (lit "Deleted account 42", 99)
  /\ get_displayname Fixtures.config_unknown_preference
       (Fixtures.alice true true tl.PhotoNone) false
     = Raises KeyError.
Proof.
  split; [reflexivity|]. split; [|reflexivity].
  vm_compute. discriminate.
Qed.

(** C6, amended: for every profile whose [deleted] flag is true and every
    preference list made of keys of [data], [get_displayname] returns
    quality 99 and the name ["Deleted account <id>"], passed through the
    display-name template unless [enable_format] is false; the other name
    fields and the order of the preferences do not matter. *)
Theorem deleted_account_displayname (config : Config) (info : tl.User)
    (enable_format : bool) :
  tl.deleted info = true ->
  Forall (fun preference => In preference preference_kinds)
         (displayname_preference config) ->
  get_displayname config info enable_format
  = Returns ((if enable_format
              then format_full (displayname_template config)
                               (lit "Deleted account " ++ str_of_int (tl.id info))
              else lit "Deleted account " ++ str_of_int (tl.id info)), 99).
Proof.
  intros Hdel Hknown. unfold get_displayname.
  destruct (walk_preferences_known info (_filter_name (tl.first_name info))
              (_filter_name (tl.last_name info)) _ Hknown None 99)
    as (name & quality & ->).
  rewrite Hdel. reflexivity.
Qed.

Lemma deleted_account_displayname_witness :
  get_displayname Fixtures.config (Fixtures.alice false true tl.PhotoNone) false
  = Returns (lit "Deleted account 42", 99).
Proof.
  apply (deleted_account_displayname Fixtures.config
           (Fixtures.alice false true tl.PhotoNone) false).
  - reflexivity.
  - repeat constructor; simpl; tauto.
Defined.

(** ** Display-name reconciliation *)

Ltac run_method :=
  unfold update_displayname, displayname_eligibility, displayname_commit, update_avatar,
    bind, ret, raise, lift, get_self, assign, get_changed, set_changed, await,
    try_except, when; cbn [self changed calls fst snd].

Lemma with_displayname_contact_id (p : db.Puppet) :
  p = db.with_displayname_contact (db.displayname_contact p) p.
Proof. destruct p; reflexivity. Qed.

(** What the eligibility checks leave of the frame: only [displayname_contact] may have
    been assigned, and for a [User] no call has been made. *)
Lemma displayname_eligibility_frame world source info st because u st1 :
  displayname_eligibility world source info st = (Returns (Some (because, u)), st1) ->
  self st1 = db.with_displayname_contact (db.displayname_contact (self st1)) (self st)
  /\ changed st1 = changed st
  /\ (forall u0, info = tl.a_User u0 -> u = u0 /\ calls st1 = calls st).
Proof.
  run_method.
  destruct (db.disable_updates (self st)); [discriminate|].
  destruct (allow_because (self st) source info); [|discriminate].
  destruct info as [u0|upd]; cbn [self changed calls].
  - destruct (tl.contact u0), (db.displayname_contact (self st)) eqn:Hc,
      (truthy (db.displayname (self st)));
      cbn [negb]; intros H; inversion H; subst; clear H;
      cbn [self changed calls db.displayname_contact db.with_displayname_contact];
      repeat split; try congruence;
      try reflexivity;
      rewrite <- ?Hc; apply with_displayname_contact_id.
  - destruct (on_get_entity world (au.tgid source) (db.id (self st))) as [u1|e];
      [|discriminate]. cbn [self changed calls].
    destruct (tl.contact u1), (db.displayname_contact (self st)) eqn:Hc,
      (truthy (db.displayname (self st)));
      cbn [negb]; intros H; inversion H; subst; clear H;
      cbn [self changed calls db.displayname_contact db.with_displayname_contact];
      repeat split; try discriminate; try congruence; try reflexivity;
      rewrite <- ?Hc; apply with_displayname_contact_id.
Qed.




(** The overwrite test, as a proposition. *)
Lemma overwrites_true (p : db.Puppet) (displayname : str) (quality : Z) :
  overwrites p displayname quality = true
  <-> Some displayname <> db.displayname p /\ db.displayname_quality p <= quality.
Proof.
  unfold overwrites. rewrite andb_true_iff, negb_true_iff, Z.leb_le.
  rewrite bool_decide_eq_false. reflexivity.
Qed.

(** [update_displayname] past the eligibility checks, where the candidate overwrites:
    the three fields are assigned, the truncated name is pushed, and the
    answer to the push decides the rest. *)
Lemma update_displayname_commits world config source info st because u st1
    displayname quality :
  displayname_eligibility world source info st = (Returns (Some (because, u)), st1) ->
  get_displayname config u true = Returns (displayname, quality) ->
  overwrites (self st1) displayname quality = true ->
  update_displayname world config source info st
  = let name := slice_to (displayname_max_length config) displayname in
    let committed :=
      db.with_displayname_quality quality
        (db.with_displayname_source (Some (au.tgid source))
           (db.with_displayname (Some displayname) (self st1))) in
    match on_set_displayname world name with
    | Returns _ =>
        (Returns true,
         {| self := committed; changed := changed st1;
            calls := calls st1 ++ [set_displayname name] |})
    | Raises MatrixError =>
        (Returns true,
         {| self := db.with_displayname_quality 0
                      (db.with_displayname_source None
                         (db.with_displayname (Some []) committed));
            changed := changed st1;
            calls := calls st1 ++ [set_displayname name] |})
    | Raises e =>
        (Raises e,
         {| self := committed; changed := changed st1;
            calls := calls st1 ++ [set_displayname name] |})
    end.
Proof.
  intros Heligible Hget Hov.
  unfold update_displayname, bind. rewrite Heligible.
  unfold displayname_commit, bind, lift. rewrite Hget.
  unfold get_self. rewrite Hov.
  unfold assign, try_except, await, ret. cbn [self changed calls].
  destruct (on_set_displayname world _) as [[]|[]]; reflexivity.
Qed.

(** [update_displayname] past the eligibility checks, where the candidate does not
    overwrite. *)
Lemma update_displayname_keeps world config source info st because u st1
    displayname quality :
  displayname_eligibility world source info st = (Returns (Some (because, u)), st1) ->
  get_displayname config u true = Returns (displayname, quality) ->
  overwrites (self st1) displayname quality = false ->
  update_displayname world config source info st
  = if au.is_relaybot source || bool_decide (db.displayname_source (self st1) = None)
    then (Returns true,
          {| self := db.with_displayname_source (Some (au.tgid source)) (self st1);
             changed := changed st1; calls := calls st1 |})
    else (Returns false, st1).
Proof.
  intros Heligible Hget Hov.
  unfold update_displayname, bind. rewrite Heligible.
  unfold displayname_commit, bind, lift. rewrite Hget.
  unfold get_self. rewrite Hov.
  destruct (au.is_relaybot source || bool_decide _); reflexivity.
Qed.

(** C2, as the claim states it: the candidate is committed and the push
    fails, with an exception that is not a [MatrixError]. Nothing is rolled
    back: the committed name, source and quality stay, and
    [update_displayname] raises instead of returning [True]. [update_info]
    catches the exception and, nothing else having changed, does not save:
    the puppet keeps in memory a name that was not pushed. *)
Lemma displayname_rollback_other_failure_counterexample :
  displayname_eligibility (Fixtures.world (Raises OtherException)) Fixtures.user_7
    (tl.a_User (Fixtures.alice true false tl.PhotoNone))
    (Fixtures.frame (Fixtures.puppet (Some (lit "Bob")) (Some 7) 50 None))
  = (Returns (Some ("user is the primary source"%string,
                    Fixtures.alice true false tl.PhotoNone)),
     Fixtures.frame (Fixtures.puppet (Some (lit "Bob")) (Some 7) 50 None))
  /\ get_displayname Fixtures.config (Fixtures.alice true false tl.PhotoNone) true
     = Returns (lit "Alice (Telegram)", 99)
  /\ overwrites (Fixtures.puppet (Some (lit "Bob")) (Some 7) 50 None)
                (lit "Alice (Telegram)") 99 = true
  /\ on_set_displayname (Fixtures.world (Raises OtherException))
       (lit "Alice (Telegram)") = Raises OtherException
  /\ update_displayname (Fixtures.world (Raises OtherException)) Fixtures.config
       Fixtures.user_7 (tl.a_User (Fixtures.alice true false tl.PhotoNone))
       (Fixtures.frame (Fixtures.puppet (Some (lit "Bob")) (Some 7) 50 None))
     = (Raises OtherException,
        {| self := Fixtures.puppet (Some (lit "Alice (Telegram)")) (Some 7) 99 None;
           changed := false;
           calls := [set_displayname (lit "Alice (Telegram)")] |})
  /\ update_info (Fixtures.world (Raises OtherException)) Fixtures.config
       Fixtures.user_7 (Fixtures.alice true false tl.PhotoNone)
       (Fixtures.frame (Fixtures.puppet (Some (lit "Bob")) (Some 7) 50 None))
     = (Returns tt,
        {| self := Fixtures.puppet (Some (lit "Alice (Telegram)")) (Some 7) 99 None;
           changed := false;
           calls := [set_displayname (lit "Alice (Telegram)")] |}).
Proof. repeat split. Qed.

(** C2, amended: in an eligible update whose candidate is committed, the
    failed push is the only call made after the eligibility checks, and the
    kind of failure decides the rest. When [set_displayname] fails with a
    [MatrixError], the method returns [True] and leaves
    [displayname = ""], [displayname_source = None] and
    [displayname_quality = 0]. When it fails with any other exception, the
    method raises that exception and the committed name, source and quality
    stay. *)
Theorem displayname_rollback_on_sync_failure (world : World) (config : Config)
    (source : au.AbstractUser) (info : tl.Info) (st st1 : Frame)
    (because : string) (u : tl.User) (displayname : str) (quality : Z)
    (e : Exn) :
  displayname_eligibility world source info st = (Returns (Some (because, u)), st1) ->
  get_displayname config u true = Returns (displayname, quality) ->
  overwrites (self st1) displayname quality = true ->
  on_set_displayname world (slice_to (displayname_max_length config) displayname)
  = Raises e ->
  exists r st',
    update_displayname world config source info st = (r, st')
    /\ calls st'
       = calls st1
         ++ [set_displayname (slice_to (displayname_max_length config) displayname)]
    /\ (e = MatrixError ->
        r = Returns true
        /\ db.displayname (self st') = Some []
        /\ db.displayname_source (self st') = None
        /\ db.displayname_quality (self st') = 0)
    /\ (e <> MatrixError ->
        r = Raises e
        /\ db.displayname (self st') = Some displayname
        /\ db.displayname_source (self st') = Some (au.tgid source)
        /\ db.displayname_quality (self st') = quality).
Proof.
  intros Heligible Hget Hov Hfail.
  rewrite (update_displayname_commits _ _ _ _ _ _ _ _ _ _ Heligible Hget Hov).
  cbv zeta. rewrite Hfail.
  destruct e; eexists _, _; (split; [reflexivity|]); cbn [self calls];
    (split; [reflexivity|]); split; intros He;
    try discriminate He; try (exfalso; apply He; reflexivity);
    repeat split.
Qed.

Lemma displayname_rollback_on_sync_failure_witness :
  exists st',
    update_displayname (Fixtures.world (Raises MatrixError)) Fixtures.config
      Fixtures.user_7 (tl.a_User (Fixtures.alice true false tl.PhotoNone))
      (Fixtures.frame (Fixtures.puppet (Some (lit "Bob")) (Some 7) 50 None))
    = (Returns true, st')
    /\ db.displayname (self st') = Some []
    /\ db.displayname_source (self st') = None
    /\ db.displayname_quality (self st') = 0
    /\ calls st' = [set_displayname (lit "Alice (Telegram)")].
Proof.
  destruct (displayname_rollback_on_sync_failure
              (Fixtures.world (Raises MatrixError))
              Fixtures.config Fixtures.user_7
              (tl.a_User (Fixtures.alice true false tl.PhotoNone))
              (Fixtures.frame (Fixtures.puppet (Some (lit "Bob")) (Some 7) 50 None))
              (Fixtures.frame (Fixtures.puppet (Some (lit "Bob")) (Some 7) 50 None))
              "user is the primary source"%string
              (Fixtures.alice true false tl.PhotoNone)
              (lit "Alice (Telegram)") 99 MatrixError
              eq_refl eq_refl eq_refl eq_refl)
    as (r & st' & Hrun & Hcalls & Hrollback & _).
  destruct (Hrollback eq_refl) as (-> & Hname & Hsource & Hquality).
  exists st'. repeat split; assumption.
Defined.

(** The caller then persists the rolled-back state: [update_info] sees
    [True] and saves the row with the empty name. *)
Example update_info_saves_rolled_back_name :
  update_info (Fixtures.world (Raises MatrixError)) Fixtures.config
    Fixtures.user_7 (Fixtures.alice true false tl.PhotoNone)
    (Fixtures.frame (Fixtures.puppet (Some (lit "Bob")) (Some 7) 50 None))
  = (Returns tt,
     {| self := Fixtures.puppet (Some []) None 0 None;
        changed := true;
        calls := [set_displayname (lit "Alice (Telegram)");
                  save (Fixtures.puppet (Some []) None 0 None)] |}).
Proof. vm_compute. reflexivity. Qed.

(** C3: in an eligible update the name, source and quality are overwritten
    exactly when the candidate differs from the stored name and its quality
    is at least the stored quality. The overwrite shows as the push of the
    truncated candidate, the only call the method can make once eligible;
    unless that push fails with a [MatrixError], the three fields then hold
    the candidate, the id of the source and the quality of the candidate.
    Without overwrite the name and the quality stay. So a different
    candidate of equal quality overwrites, and one of strictly lower quality
    never does. *)
Theorem displayname_overwrite_iff (world : World) (config : Config)
    (source : au.AbstractUser) (info : tl.Info) (st st1 : Frame)
    (because : string) (u : tl.User) (displayname : str) (quality : Z) :
  displayname_eligibility world source info st = (Returns (Some (because, u)), st1) ->
  get_displayname config u true = Returns (displayname, quality) ->
  exists r st',
    update_displayname world config source info st = (r, st')
    /\ ((Some displayname <> db.displayname (self st1)
         /\ db.displayname_quality (self st1) <= quality)
        <-> calls st'
            = calls st1
              ++ [set_displayname
                    (slice_to (displayname_max_length config) displayname)])
    /\ (Some displayname <> db.displayname (self st1) ->
        db.displayname_quality (self st1) <= quality ->
        on_set_displayname world
          (slice_to (displayname_max_length config) displayname)
        <> Raises MatrixError ->
        db.displayname (self st') = Some displayname
        /\ db.displayname_source (self st') = Some (au.tgid source)
        /\ db.displayname_quality (self st') = quality)
    /\ (~ (Some displayname <> db.displayname (self st1)
           /\ db.displayname_quality (self st1) <= quality) ->
        db.displayname (self st') = db.displayname (self st1)
        /\ db.displayname_quality (self st') = db.displayname_quality (self st1)
        /\ calls st' = calls st1)
    /\ (Some displayname <> db.displayname (self st1) ->
        quality = db.displayname_quality (self st1) ->
        calls st'
        = calls st1
          ++ [set_displayname
                (slice_to (displayname_max_length config) displayname)])
    /\ (quality < db.displayname_quality (self st1) ->
        db.displayname (self st') = db.displayname (self st1)
        /\ db.displayname_quality (self st') = db.displayname_quality (self st1)
        /\ calls st' = calls st1).
Proof.
  intros Heligible Hget.
  destruct (overwrites (self st1) displayname quality) eqn:Hov.
  - pose proof (proj1 (overwrites_true _ _ _) Hov) as [Hne Hle].
    rewrite (update_displayname_commits _ _ _ _ _ _ _ _ _ _ Heligible Hget Hov).
    cbv zeta.
    destruct (on_set_displayname world _) as [[]|e] eqn:Hanswer;
      [|destruct e]; eexists; eexists; (split; [reflexivity|]);
      cbn [self changed calls];
      (split; [split; [reflexivity | intros _; split; assumption] |]);
      (split; [intros _ _ Hok; try (exfalso; apply Hok; reflexivity);
               repeat split |]);
      (split; [intros Hno; exfalso; apply Hno; split; assumption |]);
      (split; [reflexivity | intros Hlt; lia]).
  - assert (Hno : ~ (Some displayname <> db.displayname (self st1)
                     /\ db.displayname_quality (self st1) <= quality)).
    { intros H. apply overwrites_true in H. congruence. }
    rewrite (update_displayname_keeps _ _ _ _ _ _ _ _ _ _ Heligible Hget Hov).
    assert (Happ : forall (l : list Call) c, l <> l ++ [c]).
    { intros l c H. apply (f_equal (@length Call)) in H.
      rewrite length_app in H. simpl in H. lia. }
    destruct (au.is_relaybot source || bool_decide _);
      eexists; eexists; (split; [reflexivity|]);
      cbn [self changed calls];
      (split; [split; [intros H; exfalso; exact (Hno H)
                      | intros H; exfalso; exact (Happ _ _ H)] |]);
      (split; [intros H1 H2; exfalso; apply Hno; split; assumption |]);
      (split; [intros _; repeat split |]);
      (split; [intros H1 H2; exfalso; apply Hno; split; [assumption | lia]
              | intros _; repeat split]).
Qed.

Lemma displayname_overwrite_iff_witness :
  exists r st',
    update_displayname (Fixtures.world (Returns tt)) Fixtures.config
      Fixtures.user_7 (tl.a_User (Fixtures.alice true false tl.PhotoNone))
      (Fixtures.frame (Fixtures.puppet (Some (lit "Bob")) (Some 7) 99 None))
    = (r, st')
    /\ calls st' = [set_displayname (lit "Alice (Telegram)")]
    /\ db.displayname (self st') = Some (lit "Alice (Telegram)").
Proof.
  destruct (displayname_overwrite_iff (Fixtures.world (Returns tt))
           Fixtures.config Fixtures.user_7
           (tl.a_User (Fixtures.alice true false tl.PhotoNone))
           (Fixtures.frame (Fixtures.puppet (Some (lit "Bob")) (Some 7) 99 None))
           (Fixtures.frame (Fixtures.puppet (Some (lit "Bob")) (Some 7) 99 None))
           "user is the primary source"%string
           (Fixtures.alice true false tl.PhotoNone)
           (lit "Alice (Telegram)") 99 eq_refl eq_refl)
    as (r & st' & Hrun & _ & Hset & _ & Heq & _).
  exists r, st'. split; [exact Hrun|]. split.
  - apply Heq; [discriminate | reflexivity].
  - apply Hset; [discriminate | simpl; lia | discriminate].
Defined.

(** C7, as the claim states it: a source that is a bot but not the relay
    bot, a stored source, and a candidate equal to the stored name. The
    method returns [False] and the source stays 5. And where the method
    returns [False] a field may still have changed: for an ordinary source
    and a profile that is not a contact, [displayname_contact] has been set
    to false. *)
Lemma bot_source_stamp_counterexample :
  au.is_bot Fixtures.bot_user_7 = true
  /\ get_displayname Fixtures.config (Fixtures.alice true false tl.PhotoNone) true
     = Returns (lit "Alice (Telegram)", 99)
  /\ overwrites (Fixtures.puppet (Some (lit "Alice (Telegram)")) (Some 5) 99 None)
                (lit "Alice (Telegram)") 99 = false
  /\ update_displayname (Fixtures.world (Returns tt)) Fixtures.config
       Fixtures.bot_user_7 (tl.a_User (Fixtures.alice true false tl.PhotoNone))
       (Fixtures.frame
          (Fixtures.puppet (Some (lit "Alice (Telegram)")) (Some 5) 99 None))
     = (Returns false,
        Fixtures.frame
          (Fixtures.puppet (Some (lit "Alice (Telegram)")) (Some 5) 99 None))
  /\ update_displayname (Fixtures.world (Returns tt)) Fixtures.config
       Fixtures.user_7 (tl.a_User (Fixtures.alice false false tl.PhotoNone))
       (Fixtures.frame
          (Fixtures.puppet (Some (lit "Alice (Telegram)")) (Some 5) 99 None))
     = (Returns false,
        Fixtures.frame
          (db.with_displayname_contact false
             (Fixtures.puppet (Some (lit "Alice (Telegram)")) (Some 5) 99 None))).
Proof. repeat split. Qed.

(** The calls of the eligibility checks: none for a [User], the fetch of
    the entity for an [UpdateUserName]. *)
Lemma displayname_eligibility_calls world source info st because u st1 :
  displayname_eligibility world source info st = (Returns (Some (because, u)), st1) ->
  calls st1
  = calls st ++ match info with
                | tl.a_User _ => []
                | tl.an_UpdateUserName _ =>
                    [get_entity (au.tgid source) (db.id (self st))]
                end.
Proof.
  run_method.
  destruct (db.disable_updates (self st)); [discriminate|].
  destruct (allow_because (self st) source info); [|discriminate].
  destruct info as [u0|upd]; cbn [self changed calls].
  - destruct (tl.contact u0), (db.displayname_contact (self st)),
      (truthy (db.displayname (self st)));
      cbn [negb]; intros H; inversion H; subst; clear H;
      cbn [self changed calls]; symmetry; apply app_nil_r.
  - destruct (on_get_entity world (au.tgid source) (db.id (self st))) as [u1|e];
      [|discriminate]. cbn [self changed calls].
    destruct (tl.contact u1), (db.displayname_contact (self st)),
      (truthy (db.displayname (self st)));
      cbn [negb]; intros H; inversion H; subst; clear H;
      cbn [self changed calls]; reflexivity.
Qed.

(** C7, amended: in an eligible update whose candidate does not overwrite,
    if the source is the relay bot or [displayname_source] is [None], the
    method sets [displayname_source] to the id of the source, changes
    nothing else and returns [True]; otherwise it returns [False] and
    changes nothing. In both cases nothing is pushed: the calls are those
    made before the call, followed for an [UpdateUserName] by the fetch of
    the entity that the eligibility checks make, and by nothing for a
    [User]. Of the fields of the puppet only [displayname_contact] may
    differ from before the call, set by the contact tracking. *)
Theorem stamp_source_without_overwrite (world : World) (config : Config)
    (source : au.AbstractUser) (info : tl.Info) (st st1 : Frame)
    (because : string) (u : tl.User) (displayname : str) (quality : Z) :
  displayname_eligibility world source info st = (Returns (Some (because, u)), st1) ->
  get_displayname config u true = Returns (displayname, quality) ->
  overwrites (self st1) displayname quality = false ->
  self st1 = db.with_displayname_contact (db.displayname_contact (self st1)) (self st)
  /\ update_displayname world config source info st
     = (if au.is_relaybot source || bool_decide (db.displayname_source (self st1) = None)
        then (Returns true,
              {| self := db.with_displayname_source (Some (au.tgid source)) (self st1);
                 changed := changed st1; calls := calls st1 |})
        else (Returns false, st1))
  /\ changed st1 = changed st
  /\ calls st1
     = calls st ++ match info with
                   | tl.a_User _ => []
                   | tl.an_UpdateUserName _ =>
                       [get_entity (au.tgid source) (db.id (self st))]
                   end.
Proof.
  intros Heligible Hget Hov.
  destruct (displayname_eligibility_frame _ _ _ _ _ _ _ Heligible)
    as (Hself & Hchanged & _).
  split; [exact Hself|]. split.
  - apply (update_displayname_keeps _ _ _ _ _ _ _ _ _ _ Heligible Hget Hov).
  - split; [exact Hchanged|].
    apply (displayname_eligibility_calls _ _ _ _ _ _ _ Heligible).
Qed.

Lemma stamp_source_without_overwrite_witness :
  update_displayname (Fixtures.world (Returns tt)) Fixtures.config
    Fixtures.relaybot_7 (tl.a_User (Fixtures.alice true false tl.PhotoNone))
    (Fixtures.frame
       (Fixtures.puppet (Some (lit "Alice (Telegram)")) (Some 5) 99 None))
  = (Returns true,
     Fixtures.frame
       (Fixtures.puppet (Some (lit "Alice (Telegram)")) (Some 7) 99 None)).
Proof.
  apply (stamp_source_without_overwrite (Fixtures.world (Returns tt))
           Fixtures.config Fixtures.relaybot_7
           (tl.a_User (Fixtures.alice true false tl.PhotoNone))
           (Fixtures.frame
              (Fixtures.puppet (Some (lit "Alice (Telegram)")) (Some 5) 99 None))
           (Fixtures.frame
              (Fixtures.puppet (Some (lit "Alice (Telegram)")) (Some 5) 99 None))
           "user is bot"%string
           (Fixtures.alice true false tl.PhotoNone)
           (lit "Alice (Telegram)") 99);
    reflexivity.
Defined.

(** ** Avatar *)

(** C8: with [bridge.allow_avatar_remove] off, [update_avatar] with no
    photo or an empty photo returns [False] and leaves the frame as it was:
    no field of the puppet is assigned and no call is made, whatever
    [photo_id] is stored. *)
Theorem avatar_removal_disabled_is_noop (world : World) (config : Config)
    (source : au.AbstractUser) (photo : tl.Photo) (st : Frame) :
  allow_avatar_remove config = false ->
  photo = tl.PhotoNone \/ photo = tl.UserProfilePhotoEmpty ->
  update_avatar world config source photo st = (Returns false, st).
Proof.
  intros Heligible Hphoto. unfold update_avatar, bind, get_self, ret.
  destruct (db.disable_updates (self st)); [reflexivity|].
  destruct Hphoto as [-> | ->]; rewrite Heligible; reflexivity.
Qed.

Lemma avatar_removal_disabled_is_noop_witness :
  update_avatar (Fixtures.world (Returns tt)) Fixtures.config Fixtures.user_7
    tl.UserProfilePhotoEmpty
    (Fixtures.frame (Fixtures.puppet (Some (lit "Bob")) (Some 7) 99 (Some (lit "9"))))
  = (Returns false,
     Fixtures.frame (Fixtures.puppet (Some (lit "Bob")) (Some 7) 99 (Some (lit "9")))).
Proof.
  apply (avatar_removal_disabled_is_noop (Fixtures.world (Returns tt)) Fixtures.config
           Fixtures.user_7 tl.UserProfilePhotoEmpty
           (Fixtures.frame
              (Fixtures.puppet (Some (lit "Bob")) (Some 7) 99 (Some (lit "9"))))).
  - reflexivity.
  - right. reflexivity.
Defined.

(** ** [update_info] *)

(** With [except Exception] the guarded block always ends normally. *)
Lemma try_except_Exception_returns (body : M unit) (st : Frame) :
  exists st', try_except body is_Exception (ret tt) st = (Returns tt, st').
Proof.
  unfold try_except, ret. destruct (body st) as [[[]|e] st']; eauto.
Qed.

(** C4, as the claim states it: the push of the name fails with an
    exception that is not a [MatrixError], so [update_displayname] raises.
    [update_info] returns normally, but [update_avatar] has not been
    attempted: no avatar call is made and [photo_id] stays unset, although
    [update_avatar] run from that state would have fetched and set photo
    9. *)
Lemma avatar_attempted_after_displayname_exception_counterexample :
  exists st2 st3 st4,
    update_displayname (Fixtures.world (Raises OtherException)) Fixtures.config
      Fixtures.user_7
      (tl.a_User (Fixtures.alice false false (tl.UserProfilePhoto 9)))
      (Fixtures.frame (Fixtures.puppet None None 0 None))
    = (Raises OtherException, st2)
    /\ update_avatar (Fixtures.world (Raises OtherException)) Fixtures.config
         Fixtures.user_7 (tl.UserProfilePhoto 9) st2
       = (Returns true, st4)
    /\ calls st4
       = [set_displayname (lit "Alice (Telegram)"); get_input_entity 7 42;
          transfer_file_to_matrix 7 9;
          set_avatar_url (lit "mxc://example.org/abc")]
    /\ db.photo_id (self st4) = Some (lit "9")
    /\ update_info (Fixtures.world (Raises OtherException)) Fixtures.config
         Fixtures.user_7 (Fixtures.alice false false (tl.UserProfilePhoto 9))
         (Fixtures.frame (Fixtures.puppet None None 0 None))
       = (Returns tt, st3)
    /\ calls st3 = [set_displayname (lit "Alice (Telegram)")]
    /\ db.photo_id (self st3) = None.
Proof. do 3 eexists. repeat split. Qed.

(** C4, amended: in [update_info] the display-name and the avatar
    sub-update run in one guarded block. An exception raised inside either
    of them is caught there and does not prevent [update_info] from setting
    [is_bot] and returning normally, as long as the final [save] does not
    fail. An exception raised inside [update_displayname] ends the block:
    [update_avatar] is then not attempted, and [update_info] goes on from
    the state [update_displayname] left, with [changed] as the username
    comparison set it. *)
Theorem update_info_guards_sub_updates (world : World) (config : Config)
    (source : au.AbstractUser) (info : tl.User) (st : Frame) :
  (forall row, on_save world row = Returns tt) ->
  (exists st', update_info world config source info st = (Returns tt, st'))
  /\ (forall e st2,
        db.disable_updates (self st) = false ->
        update_displayname world config source (tl.a_User info)
          {| self := if bool_decide (db.username (self st) = tl.username info)
                     then self st
                     else db.with_username (tl.username info) (self st);
             changed := negb (bool_decide (db.username (self st) = tl.username info));
             calls := calls st |}
        = (Raises e, st2) ->
        exists st',
          update_info world config source info st = (Returns tt, st')
          /\ self st' = db.with_is_bot (Some (tl.bot info)) (self st2)
          /\ calls st' = calls st2 ++ (if changed st2 then [save (self st')] else [])).
Proof.
  intros Hsave. split.
  - unfold update_info.
    unfold bind at 1. unfold set_changed at 1.
    unfold bind at 1. unfold get_self at 1. cbn [self changed calls].
    unfold bind at 1.
    destruct (when _ _ _) as [[[]|e] st1] eqn:Hname.
    2:{ exfalso. revert Hname. unfold when, bind, assign, set_changed, ret.
        destruct (negb _); discriminate. }
    unfold bind at 1. unfold get_self at 1.
    unfold bind at 1.
    assert (Hblock : exists st2,
      when (negb (db.disable_updates (self st1)))
        (try_except
           (let! r := update_displayname world config source (tl.a_User info) in
            let! c := get_changed in
            set_changed (r || c) >>
            let! r0 := update_avatar world config source (tl.photo info) in
            let! c0 := get_changed in
            set_changed (r0 || c0))
           is_Exception (ret tt)) st1 = (Returns tt, st2)).
    { unfold when. destruct (negb (db.disable_updates (self st1))).
      - apply try_except_Exception_returns.
      - unfold ret. eauto. }
    destruct Hblock as (st2 & ->).
    unfold bind, assign, get_changed, get_self, when, await, ret.
    cbn [self changed calls].
    destruct (changed st2); [rewrite Hsave|]; eauto.
  - intros e st2 Hdis Hraise.
    unfold update_info, bind, set_changed, get_self, when, assign, ret.
    cbn [self changed calls].
    destruct (bool_decide (db.username (self st) = tl.username info)) eqn:Hname;
      cbn [negb self changed calls] in *.
    + rewrite Hdis. cbn [negb].
      unfold try_except, bind. rewrite Hraise. cbn [is_Exception].
      unfold get_changed, await. cbn [self changed calls].
      destruct (changed st2); [rewrite Hsave|];
        eexists; repeat split; cbn [self changed calls];
        rewrite ?app_nil_r; reflexivity.
    + assert (Hdis' : db.disable_updates
                        (db.with_username (tl.username info) (self st)) = false)
        by exact Hdis.
      rewrite Hdis'. cbn [negb].
      unfold try_except, bind. rewrite Hraise. cbn [is_Exception].
      unfold get_changed, await. cbn [self changed calls].
      destruct (changed st2); [rewrite Hsave|];
        eexists; repeat split; cbn [self changed calls];
        rewrite ?app_nil_r; reflexivity.
Qed.

Lemma update_info_guards_sub_updates_witness :
  exists st',
    update_info (Fixtures.world (Raises OtherException)) Fixtures.config
      Fixtures.user_7 (Fixtures.alice false false (tl.UserProfilePhoto 9))
      (Fixtures.frame (Fixtures.puppet None None 0 None))
    = (Returns tt, st').
Proof.
  apply (update_info_guards_sub_updates (Fixtures.world (Raises OtherException))
           Fixtures.config Fixtures.user_7
           (Fixtures.alice false false (tl.UserProfilePhoto 9))
           (Fixtures.frame (Fixtures.puppet None None 0 None))).
  intros row. reflexivity.
Defined.

(** ** The identity cache *)

Section Getters.
Import Cache Coalescing.

(** C10: [get_by_tgid(None)] run on its own returns [None] for either value
    of [create] and leaves the class as it was: no statement is sent to the
    table, no row is inserted, no object is constructed and neither cache
    map is written; the lock of the key, taken by the decorator, is free
    again. *)
Theorem get_by_tgid_None (create : bool) (c : Class) :
  None ∉ _async_get_locks c ->
  run (get_by_tgid None create) c = Some (Returns None, c).
Proof.
  intros Hfree. unfold get_by_tgid, async_getter_lock.
  cbn [run serve]. rewrite (bool_decide_eq_false_2 _ Hfree).
  cbn. do 2 f_equal. destruct c as [t m o l tb q]. unfold with_locks. cbn.
  f_equal. apply set_eq. intros x. cbn in Hfree.
  rewrite elem_of_difference, elem_of_union, elem_of_singleton.
  split; [intros [[->|Hx] Hne]; [contradiction | exact Hx] |].
  intros Hx. split; [right; exact Hx | intros ->; contradiction].
Qed.

Lemma get_by_tgid_None_witness :
  run (get_by_tgid None false) Fixtures.empty_class
  = Some (Returns None, Fixtures.empty_class).
Proof.
  apply (get_by_tgid_None false Fixtures.empty_class).
  simpl. apply not_elem_of_empty.
Defined.

(** *** The set of held locks *)

Lemma locks_acquire (key : option Z) (held bound : gset (option Z)) :
  held ⊆ {[key]} ∪ bound -> {[key]} ∪ held ⊆ {[key]} ∪ bound.
Proof.
  intros Hsub x Hx. apply elem_of_union in Hx as [Hx|Hx].
  - apply elem_of_union. left. exact Hx.
  - apply Hsub. exact Hx.
Qed.

Lemma locks_acquired (key : option Z) (held : gset (option Z)) :
  key ∈ {[key]} ∪ held.
Proof. apply elem_of_union. left. apply elem_of_singleton. reflexivity. Qed.

Lemma locks_release (key : option Z) (held bound : gset (option Z)) :
  held ⊆ bound -> held ∖ {[key]} ⊆ bound.
Proof.
  intros Hsub x Hx. apply elem_of_difference in Hx as [Hx _]. apply Hsub. exact Hx.
Qed.

Lemma locks_released (key : option Z) (held : gset (option Z)) :
  key ∉ held ∖ {[key]}.
Proof.
  intros Hx. apply elem_of_difference in Hx as [_ Hx].
  apply Hx. apply elem_of_singleton. reflexivity.
Qed.

(** *** One step of one task *)

Lemma sync_entered_miss k c :
  by_tgid c !! k = None -> sync (prog k Entered) c = (prog k Fetching, c).
Proof. intros H. cbn. rewrite H. reflexivity. Qed.

Lemma sync_entered_hit k c r :
  by_tgid c !! k = Some r ->
  sync (prog k Entered) c
  = (prog k (Done r), with_locks (_async_get_locks c ∖ {[Some k]}) c).
Proof. intros H. cbn. rewrite H. reflexivity. Qed.

Lemma sync_fetched_none k c :
  sync (prog k (Fetched None)) c
  = (prog k (Inserting (length (objects c))),
     cache (new_puppet k) (length (objects c))
       (with_objects (objects c ++ [new_puppet k]) c)).
Proof. cbn. rewrite lookup_app_r by lia. rewrite Nat.sub_diag. reflexivity. Qed.

Lemma sync_fetched_some k c data :
  sync (prog k (Fetched (Some data))) c
  = (prog k (Done (length (objects c))),
     with_locks (_async_get_locks c ∖ {[Some k]})
       (cache (row_arguments data) (length (objects c))
          (cache (row_arguments data) (length (objects c))
             (with_objects (objects c ++ [row_arguments data]) c)))).
Proof. cbn. rewrite lookup_app_r by lia. rewrite Nat.sub_diag. reflexivity. Qed.

Lemma sync_inserted k c r :
  objects c !! r = Some (new_puppet k) ->
  sync (prog k (Inserted r)) c
  = (prog k (Done r),
     with_locks (_async_get_locks c ∖ {[Some k]}) (cache (new_puppet k) r c)).
Proof. intros H. cbn. rewrite H. reflexivity. Qed.

(** Replacing a shape by a lighter one lowers the total. *)
Lemma total_insert (shapes : list Shape) i s s' :
  shapes !! i = Some s -> (weight s' < weight s)%nat ->
  (total (<[i := s']> shapes) < total shapes)%nat.
Proof.
  unfold total. revert i. induction shapes as [|x xs IH]; intros [|i] H Hw;
    try discriminate; simpl in *.
  - injection H as ->. apply Nat.add_lt_mono_r. exact Hw.
  - specialize (IH i H Hw). apply Nat.add_lt_mono_l. exact IH.
Qed.

End Getters.

Section Simulation.
Import Cache Coalescing.
Variable k : Z.
Variable c0 : Class.

(** *** The coroutine of each shape *)

Lemma prog_await s r K :
  prog k s = Await r K ->
  (s = Waiting /\ r = acquire (Some k) /\ forall a, K a = prog k Entered)
  \/ (s = Fetching /\ r = fetchrow k
      /\ forall row, K (fetched row) = prog k (Fetched row))
  \/ (exists self, s = Inserting self /\ r = execute_insert (new_puppet k)
      /\ K executed = prog k (Inserted self)).
Proof.
  destruct s as [| | |[row|]|self|self|self]; cbn; intros H; try discriminate;
    injection H as <- <-.
  - left. repeat split.
  - right. left. repeat split.
  - right. right. exists self. repeat split.
Qed.

Lemma prog_runnable s :
  is_await (prog k s) = false -> is_final (prog k s) = false ->
  s = Entered \/ (exists row, s = Fetched row) \/ exists self, s = Inserted self.
Proof.
  destruct s as [| | |row|self|self|self]; cbn; intros H1 H2; try discriminate; eauto.
Qed.

Lemma prog_ret s result :
  prog k s = Ret result -> exists self, s = Done self /\ result = Some self.
Proof.
  destruct s as [| | |[row|]|self|self|self]; cbn; intros H; try discriminate.
  injection H as <-. eauto.
Qed.

Lemma prog_not_raise s e : prog k s <> Raise e.
Proof. destruct s as [| | |[row|]|self|self|self]; cbn; discriminate. Qed.

(** *** Reading and building the invariant *)

Lemma inv_holder c shapes i s :
  Inv k c0 c shapes -> shapes !! i = Some s ->
  s <> Waiting -> (forall self, s <> Done self) ->
  Some k ∈ _async_get_locks c
  /\ holder_ok k c0 c s
  /\ forall j s', shapes !! j = Some s' -> j <> i -> idle_ok k c0 c s'.
Proof.
  intros (_ & _ & holder & Hhold & Hidle) Hs Hw Hd.
  destruct (decide (holder = Some i)) as [->|Hne].
  - destruct Hhold as (Hin & s0 & Hs0 & Hok).
    assert (s0 = s) as -> by congruence.
    repeat split; try assumption.
    intros j s' Hj Hji. apply (Hidle j s' Hj). congruence.
  - destruct (Hidle i s Hs Hne) as [->|(self & -> & _)].
    + contradiction.
    + exfalso. exact (Hd self eq_refl).
Qed.

Lemma inv_free c shapes :
  Inv k c0 c shapes -> Some k ∉ _async_get_locks c ->
  (cold k c0 c \/ exists r, warm k c0 c r)
  /\ forall j s, shapes !! j = Some s -> idle_ok k c0 c s.
Proof.
  intros (_ & _ & holder & Hhold & Hidle) Hfree.
  destruct holder as [h|].
  - destruct Hhold as (Hin & _). contradiction.
  - destruct Hhold as (_ & Hstate). split; [exact Hstate|].
    intros j s Hj. apply (Hidle j s Hj). discriminate.
Qed.

Lemma inv_key c shapes row :
  Inv k c0 c shapes -> table c0 !! k = Some row -> db.id row = k.
Proof. intros (_ & Hkey & _). apply Hkey. Qed.

Lemma inv_enter c c' shapes i s' :
  Inv k c0 c shapes -> (i < length shapes)%nat ->
  _async_get_locks c' ⊆ {[Some k]} ∪ _async_get_locks c0 ->
  Some k ∈ _async_get_locks c' ->
  holder_ok k c0 c' s' ->
  (forall j s, shapes !! j = Some s -> j <> i -> idle_ok k c0 c' s) ->
  Inv k c0 c' (<[i := s']> shapes).
Proof.
  intros (_ & Hkey & _) Hi Hlocks Hin Hok Hidle.
  split; [exact Hlocks|]. split; [exact Hkey|].
  exists (Some i). split.
  - split; [exact Hin|]. exists s'. split; [|exact Hok].
    apply list_lookup_insert_eq. exact Hi.
  - intros j s Hj Hne.
    assert (j <> i) as Hji by congruence.
    rewrite list_lookup_insert_ne in Hj by congruence.
    apply (Hidle j s Hj Hji).
Qed.

Lemma inv_leave c c' shapes i r :
  Inv k c0 c shapes -> (i < length shapes)%nat ->
  _async_get_locks c' ⊆ {[Some k]} ∪ _async_get_locks c0 ->
  Some k ∉ _async_get_locks c' ->
  warm k c0 c' r ->
  (forall j s, shapes !! j = Some s -> j <> i -> idle_ok k c0 c' s) ->
  Inv k c0 c' (<[i := Done r]> shapes).
Proof.
  intros (_ & Hkey & _) Hi Hlocks Hout Hwarm Hidle.
  split; [exact Hlocks|]. split; [exact Hkey|].
  exists None. split.
  - split; [exact Hout|]. right. exists r. exact Hwarm.
  - intros j s Hj _.
    destruct (decide (j = i)) as [->|Hji].
    + rewrite list_lookup_insert_eq in Hj by exact Hi.
      injection Hj as <-. right. exists r. split; [reflexivity | exact Hwarm].
    + rewrite list_lookup_insert_ne in Hj by congruence.
      apply (Hidle j s Hj Hji).
Qed.

(** An idle task stays idle when the cache entry and the statements run
    stay. *)
Lemma idle_ok_same c c' s :
  by_tgid c' !! k = by_tgid c !! k -> queries c' = queries c ->
  idle_ok k c0 c s -> idle_ok k c0 c' s.
Proof.
  intros Hc Hq [->|(r & -> & Hb & Hl)]; [left; reflexivity|].
  right. exists r. split; [reflexivity|]. split; congruence.
Qed.

(** While nothing is cached, every idle task is still waiting. *)
Lemma idle_ok_uncached c c' s :
  by_tgid c !! k = None -> idle_ok k c0 c s -> idle_ok k c0 c' s.
Proof.
  intros Hc [->|(r & -> & Hb & _)]; [left; reflexivity | congruence].
Qed.

(** *** Every step keeps the invariant and lowers the total *)

Lemma step_answer_preserves c shapes i s r K a c' :
  Inv k c0 c shapes ->
  shapes !! i = Some s -> prog k s = Await r K -> serve r c = Some (a, c') ->
  exists s',
    K a = prog k s' /\ (weight s' < weight s)%nat
    /\ Inv k c0 c' (<[i := s']> shapes).
Proof.
  intros HInv Hs Hprog Hserve.
  assert (Hi : (i < length shapes)%nat) by (eapply lookup_lt_Some; exact Hs).
  pose proof HInv as (Hlocks & _).
  destruct (prog_await _ _ _ Hprog)
    as [(-> & -> & HK) | [(-> & -> & HK) | (self & -> & -> & HK)]].
  - (* the lock is taken *)
    cbn [serve] in Hserve. case_bool_decide as Hfree; [discriminate|].
    injection Hserve as <- <-.
    destruct (inv_free _ _ HInv Hfree) as (Hstate & Hidle).
    exists Entered. split; [apply HK|]. split; [cbn; lia|].
    apply (inv_enter c); [exact HInv | exact Hi | | | exact Hstate |].
    + cbn. apply locks_acquire. exact Hlocks.
    + cbn. apply locks_acquired.
    + intros j s Hj _. apply (idle_ok_same c); [reflexivity..|].
      apply (Hidle j s Hj).
  - (* the table answers the SELECT *)
    cbn [serve] in Hserve. injection Hserve as <- <-.
    destruct (inv_holder _ _ _ _ HInv Hs) as (Hin & Hcold & Hidle);
      [discriminate | discriminate |].
    destruct Hcold as (Hcache & Htable & Hq).
    exists (Fetched (table c !! k)). split; [apply HK|]. split; [cbn; lia|].
    apply (inv_enter c); [exact HInv | exact Hi | exact Hlocks | exact Hin | |].
    + cbn. repeat split; try assumption. rewrite Hq. reflexivity.
    + intros j s Hj Hji. apply (idle_ok_uncached c); [exact Hcache|].
      apply (Hidle j s Hj Hji).
  - (* the table runs the INSERT *)
    destruct (inv_holder _ _ _ _ HInv Hs) as (Hin & Hok & Hidle);
      [discriminate | discriminate |].
    destruct Hok as (Hrow0 & Htable & Hcache & Hobj & Hq).
    cbn [serve new_puppet db.id] in Hserve. rewrite Htable in Hserve.
    injection Hserve as <- <-.
    exists (Inserted self). split; [exact HK|]. split; [cbn; lia|].
    apply (inv_enter c); [exact HInv | exact Hi | exact Hlocks | exact Hin | |].
    + cbn. repeat split; try assumption.
      rewrite Hq, <- app_assoc. reflexivity.
    + intros j s Hj Hji.
      destruct (Hidle j s Hj Hji) as [->|(r & -> & _ & Hl)]; [left; reflexivity|].
      exfalso. unfold loaded_queries in Hl. rewrite Hrow0, Hq in Hl.
      apply app_inv_head in Hl. discriminate.
Qed.

Lemma step_resume_preserves c shapes i s p' c' :
  Inv k c0 c shapes ->
  shapes !! i = Some s ->
  is_await (prog k s) = false -> is_final (prog k s) = false ->
  sync (prog k s) c = (p', c') ->
  exists s',
    p' = prog k s' /\ (weight s' < weight s)%nat
    /\ Inv k c0 c' (<[i := s']> shapes).
Proof.
  intros HInv Hs Hawait Hfinal Hsync.
  assert (Hi : (i < length shapes)%nat) by (eapply lookup_lt_Some; exact Hs).
  pose proof HInv as (Hlocks & _).
  destruct (prog_runnable _ Hawait Hfinal) as [-> | [(row & ->) | (self & ->)]];
    (destruct (inv_holder _ _ _ _ HInv Hs) as (Hin & Hok & Hidle);
       [discriminate | discriminate |]).
  - (* the cache lookup *)
    destruct Hok as [Hcold | (r & Hwarm)].
    + pose proof Hcold as (Hcache & _).
      rewrite (sync_entered_miss _ _ Hcache) in Hsync. injection Hsync as <- <-.
      exists Fetching. split; [reflexivity|]. split; [cbn; lia|].
      apply (inv_enter c);
        [exact HInv | exact Hi | exact Hlocks | exact Hin | exact Hcold | exact Hidle].
    + pose proof Hwarm as (Hcache & Hq).
      rewrite (sync_entered_hit _ _ _ Hcache) in Hsync. injection Hsync as <- <-.
      exists (Done r). split; [reflexivity|]. split; [cbn; lia|].
      apply (inv_leave c); [exact HInv | exact Hi | | | exact Hwarm |].
      * cbn. apply locks_release. exact Hlocks.
      * cbn. apply locks_released.
      * intros j s Hj Hji. apply (idle_ok_same c); [reflexivity..|].
        apply (Hidle j s Hj Hji).
  - (* the row is back *)
    destruct Hok as (Hrow & Hcache & Htable & Hq).
    destruct row as [data|].
    + rewrite sync_fetched_some in Hsync. injection Hsync as <- <-.
      assert (Hid : db.id data = k)
        by (apply (inv_key _ _ _ HInv); symmetry; exact Hrow).
      exists (Done (length (objects c))). split; [reflexivity|].
      split; [cbn; lia|].
      apply (inv_leave c); [exact HInv | exact Hi | | | |].
      * cbn. apply locks_release. exact Hlocks.
      * cbn. apply locks_released.
      * split.
        -- cbn. rewrite Hid. apply lookup_insert_eq.
        -- cbn. unfold loaded_queries. rewrite <- Hrow. exact Hq.
      * intros j s Hj Hji. apply (idle_ok_uncached c); [exact Hcache|].
        apply (Hidle j s Hj Hji).
    + rewrite sync_fetched_none in Hsync. injection Hsync as <- <-.
      exists (Inserting (length (objects c))). split; [reflexivity|].
      split; [cbn; lia|].
      apply (inv_enter c); [exact HInv | exact Hi | exact Hlocks | exact Hin | |].
      * cbn. repeat split; try congruence.
        -- apply lookup_insert_eq.
        -- rewrite lookup_app_r by lia. rewrite Nat.sub_diag. reflexivity.
      * intros j s Hj Hji. apply (idle_ok_uncached c); [exact Hcache|].
        apply (Hidle j s Hj Hji).
  - (* the INSERT is done *)
    destruct Hok as (Hrow0 & Hcache & Hobj & Hq).
    rewrite (sync_inserted _ _ _ Hobj) in Hsync. injection Hsync as <- <-.
    exists (Done self). split; [reflexivity|]. split; [cbn; lia|].
    assert (Hwarm : warm k c0
              (with_locks (_async_get_locks c ∖ {[Some k]})
                 (cache (new_puppet k) self c)) self).
    { split.
      - cbn. apply lookup_insert_eq.
      - cbn. unfold loaded_queries. rewrite Hrow0. exact Hq. }
    apply (inv_leave c); [exact HInv | exact Hi | | | exact Hwarm |].
    + cbn. apply locks_release. exact Hlocks.
    + cbn. apply locks_released.
    + intros j s Hj Hji.
      destruct (Hidle j s Hj Hji) as [->|(r & -> & Hb & _)]; [left; reflexivity|].
      right. exists r. split; [reflexivity|].
      assert (r = self) as -> by congruence. exact Hwarm.
Qed.

Lemma step_preserves c shapes st' :
  Inv k c0 c shapes -> step (c, prog k <$> shapes) st' ->
  exists c' shapes',
    st' = (c', prog k <$> shapes') /\ Inv k c0 c' shapes'
    /\ (total shapes' < total shapes)%nat
    /\ length shapes' = length shapes.
Proof.
  intros HInv Hstep.
  inversion Hstep as [c1 tasks i r K a c' Htask Hserve
                     | c1 tasks i p p' c' Htask Hawait Hfinal Hsync]; subst.
  - rewrite list_lookup_fmap in Htask.
    destruct (shapes !! i) as [s|] eqn:Hs; [|discriminate].
    injection Htask as Hprog.
    destruct (step_answer_preserves _ _ _ _ _ _ _ _ HInv Hs Hprog Hserve)
      as (s' & HK & Hw & HInv').
    exists c', (<[i := s']> shapes).
    split; [rewrite list_fmap_insert, HK; reflexivity|].
    split; [exact HInv'|].
    split; [apply (total_insert _ _ _ _ Hs Hw) | apply length_insert].
  - rewrite list_lookup_fmap in Htask.
    destruct (shapes !! i) as [s|] eqn:Hs; [|discriminate].
    injection Htask as <-.
    destruct (step_resume_preserves _ _ _ _ _ _ HInv Hs Hawait Hfinal Hsync)
      as (s' & Hp & Hw & HInv').
    exists c', (<[i := s']> shapes).
    split; [rewrite list_fmap_insert, Hp; reflexivity|].
    split; [exact HInv'|].
    split; [apply (total_insert _ _ _ _ Hs Hw) | apply length_insert].
Qed.

Lemma steps_preserve n st st' :
  steps n st st' ->
  forall c shapes,
    st = (c, prog k <$> shapes) -> Inv k c0 c shapes ->
    exists c' shapes',
      st' = (c', prog k <$> shapes') /\ Inv k c0 c' shapes'
      /\ (n + total shapes' <= total shapes)%nat
      /\ length shapes' = length shapes.
Proof.
  induction 1 as [st|n st1 st2 st3 Hstep _ IH]; intros c shapes -> HInv.
  - exists c, shapes.
    split; [reflexivity|]. split; [exact HInv|]. split; [lia | reflexivity].
  - destruct (step_preserves _ _ _ HInv Hstep)
      as (c2 & shapes2 & -> & HInv2 & Hlt & Hlen).
    destruct (IH c2 shapes2 eq_refl HInv2)
      as (c' & shapes' & -> & HInv' & Hle & Hlen').
    exists c', shapes'.
    split; [reflexivity|]. split; [exact HInv'|]. split; lia.
Qed.

(** *** What the invariant gives *)

Lemma inv_init N :
  by_tgid c0 !! k = None ->
  Some k ∉ _async_get_locks c0 ->
  (forall row, table c0 !! k = Some row -> db.id row = k) ->
  Inv k c0 c0 (replicate N Waiting).
Proof.
  intros Hcache Hfree Hkey.
  split; [apply union_subseteq_r|]. split; [exact Hkey|].
  exists None. split.
  - split; [exact Hfree|]. left. repeat split. exact Hcache.
  - intros j s Hj _. apply lookup_replicate in Hj as [-> _]. left. reflexivity.
Qed.

(** While a task has not returned, some task can move. *)
Lemma inv_progress c shapes i s :
  Inv k c0 c shapes -> shapes !! i = Some s -> (forall r, s <> Done r) ->
  exists st', step (c, prog k <$> shapes) st'.
Proof.
  intros HInv Hs Hnot.
  assert (Hmove : forall h sh, shapes !! h = Some sh ->
            sh <> Waiting -> (forall r, sh <> Done r) ->
            exists st', step (c, prog k <$> shapes) st').
  { intros h sh Hh Hw Hd.
    assert (Htask : (prog k <$> shapes) !! h = Some (prog k sh))
      by (rewrite list_lookup_fmap, Hh; reflexivity).
    destruct sh as [| | |row|self|self|self].
    - contradiction.
    - destruct (sync (prog k Entered) c) as [p' c'] eqn:Hsync.
      eexists. eapply (step_resume _ _ h); [exact Htask | reflexivity.. | exact Hsync].
    - eexists. eapply (step_answer _ _ h); [exact Htask | reflexivity].
    - destruct (sync (prog k (Fetched row)) c) as [p' c'] eqn:Hsync.
      eexists. eapply (step_resume _ _ h);
        [exact Htask | destruct row; reflexivity.. | exact Hsync].
    - destruct (serve (execute_insert (new_puppet k)) c) as [[a c']|] eqn:Hserve.
      + eexists. eapply (step_answer _ _ h); [exact Htask | exact Hserve].
      + cbn in Hserve. destruct (table c !! k); discriminate.
    - destruct (sync (prog k (Inserted self)) c) as [p' c'] eqn:Hsync.
      eexists. eapply (step_resume _ _ h); [exact Htask | reflexivity.. | exact Hsync].
    - exfalso. exact (Hd self eq_refl). }
  assert (Hcase : s = Waiting \/ s <> Waiting)
    by (destruct s; (left; reflexivity) || (right; discriminate)).
  destruct Hcase as [->|Hw]; [|exact (Hmove i s Hs Hw Hnot)].
  pose proof HInv as (_ & _ & holder & Hhold & _).
  destruct holder as [h|].
  - destruct Hhold as (_ & sh & Hh & Hok).
    apply (Hmove h sh Hh); intros; destruct sh; try discriminate; destruct Hok.
  - destruct Hhold as (Hfree & _).
    eexists. eapply (step_answer _ _ i).
    + rewrite list_lookup_fmap, Hs. reflexivity.
    + cbn. rewrite (bool_decide_eq_false_2 _ Hfree). reflexivity.
Qed.

(** A returned task has the cached puppet. *)
Lemma inv_done c shapes i r :
  Inv k c0 c shapes -> shapes !! i = Some (Done r) -> warm k c0 c r.
Proof.
  intros (_ & _ & holder & Hhold & Hidle) Hs.
  destruct (decide (holder = Some i)) as [->|Hne].
  - destruct Hhold as (_ & s & Hs' & Hok).
    assert (s = Done r) as -> by congruence. destruct Hok.
  - destruct (Hidle i _ Hs Hne) as [H|(r' & H & Hwarm)]; [discriminate|].
    injection H as <-. exact Hwarm.
Qed.

(** At most one [SELECT], then at most one [INSERT]. *)
Lemma inv_queries c shapes :
  Inv k c0 c shapes ->
  exists done,
    queries c = queries c0 ++ done
    /\ (done = [] \/ done = [fetchrow k]
        \/ done = [fetchrow k; execute_insert (new_puppet k)]).
Proof.
  intros (_ & _ & holder & Hhold & _).
  assert (Hcold : forall c, cold k c0 c -> queries c = queries c0 ++ [])
    by (intros c1 (_ & _ & ->); rewrite app_nil_r; reflexivity).
  assert (Hwarm : forall c r, warm k c0 c r ->
            exists done, queries c = queries c0 ++ done
              /\ (done = [] \/ done = [fetchrow k]
                  \/ done = [fetchrow k; execute_insert (new_puppet k)])).
  { intros c1 r (_ & ->). unfold loaded_queries.
    destruct (table c0 !! k); eexists; split; eauto. }
  destruct holder as [h|].
  - destruct Hhold as (_ & s & _ & Hok). destruct s; cbn in Hok; try contradiction.
    + destruct Hok as [Hc|(r & Hw)]; [eauto | exact (Hwarm _ _ Hw)].
    + eauto.
    + destruct Hok as (_ & _ & _ & ->). eauto.
    + destruct Hok as (_ & _ & _ & _ & ->). eauto.
    + destruct Hok as (_ & _ & _ & ->). eauto 6.
  - destruct Hhold as (_ & [Hc|(r & Hw)]); [eauto | exact (Hwarm _ _ Hw)].
Qed.

(** A request for another id runs to its end from any state in which its
    own lock is free. *)
Lemma run_get_by_tgid_free k' create c :
  Some k' ∉ _async_get_locks c ->
  exists result c', run (get_by_tgid (Some k') create) c = Some (result, c').
Proof.
  intros Hfree. unfold get_by_tgid, async_getter_lock.
  cbn [run serve]. rewrite (bool_decide_eq_false_2 _ Hfree). cbn.
  destruct (by_tgid c !! k') as [r|]; [cbn; eauto|].
  cbn. destruct (table c !! k') as [data|]; cbn.
  - rewrite lookup_app_r by lia. rewrite Nat.sub_diag. cbn. eauto.
  - destruct create; cbn; [|eauto].
    rewrite lookup_app_r by lia. rewrite Nat.sub_diag. cbn.
    destruct (table c !! k') as [data|]; cbn; [eauto|].
    rewrite lookup_app_r by lia. rewrite Nat.sub_diag. cbn. eauto.
Qed.

End Simulation.

Section Coalesced.
Import Cache Coalescing.

(** C9: [N >= 1] tasks call [get_by_tgid] (with [create] left at [True])
    for the same id [k], which is not cached and whose lock is free. In
    every state the event loop can reach, whatever the order in which the
    tasks move:
    - the table has run at most one [SELECT] for [k] and then at most one
      [INSERT], and no task has raised;
    - all tasks that have returned have returned the same object, the one
      cached under [k];
    - as long as a task has not returned some task can move, and no run
      is longer than [6 * N] steps, so every run ends with all tasks
      returned; then all [N] results are that one object, and the table has
      run exactly one [SELECT], followed by exactly one [INSERT] when it had
      no row for [k] and by none when it had one;
    - a request for a different id, whose own lock is free, runs to its end
      from that state without waiting; and the locks of other ids that are
      held when the requests are made do not keep the tasks for [k] from
      moving. *)
Theorem get_by_tgid_coalesces (k : Z) (N n : nat) (c0 c : Class)
    (tasks : list (Prog (option ref))) :
  (1 <= N)%nat ->
  by_tgid c0 !! k = None ->
  Some k ∉ _async_get_locks c0 ->
  (forall row, table c0 !! k = Some row -> db.id row = k) ->
  steps n (c0, replicate N (get_by_tgid (Some k) true)) (c, tasks) ->
  (n <= 6 * N)%nat
  /\ length tasks = N
  /\ (exists done,
        queries c = queries c0 ++ done
        /\ (done = [] \/ done = [fetchrow k]
            \/ done = [fetchrow k; execute_insert (new_puppet k)]))
  /\ (forall i e, tasks !! i <> Some (Raise e))
  /\ (forall i j ri rj,
        tasks !! i = Some (Ret ri) -> tasks !! j = Some (Ret rj) ->
        ri = rj /\ exists r, ri = Some r /\ by_tgid c !! k = Some r)
  /\ ((exists i p, tasks !! i = Some p /\ is_final p = false) ->
      exists st', step (c, tasks) st')
  /\ ((forall i p, tasks !! i = Some p -> is_final p = true) ->
      exists r,
        tasks = replicate N (Ret (Some r))
        /\ by_tgid c !! k = Some r
        /\ queries c
           = queries c0 ++ fetchrow k ::
             match table c0 !! k with
             | Some _ => []
             | None => [execute_insert (new_puppet k)]
             end)
  /\ (forall k' create,
        k' <> k -> Some k' ∉ _async_get_locks c0 ->
        exists result c', run (get_by_tgid (Some k') create) c = Some (result, c')).
Proof.
  intros HN Hcache Hfree Hkey Hsteps.
  pose proof (inv_init k c0 N Hcache Hfree Hkey) as Hinit.
  destruct (steps_preserve k c0 _ _ _ Hsteps c0 (replicate N Waiting))
    as (c' & shapes & Hst & HInv & Hle & Hlen).
  { rewrite fmap_replicate. reflexivity. }
  { exact Hinit. }
  injection Hst as -> ->.
  assert (Htotal : total (replicate N Waiting) = (6 * N)%nat).
  { unfold total. rewrite fmap_replicate. cbn [weight].
    clear. induction N as [|m IH]; simpl; [reflexivity|]. rewrite IH. lia. }
  rewrite length_replicate in Hlen.
  split; [lia|].
  split; [rewrite length_fmap; exact Hlen|].
  split; [exact (inv_queries k c0 _ _ HInv)|].
  split.
  { intros i e Hi. rewrite list_lookup_fmap in Hi.
    destruct (shapes !! i) as [s|]; [|discriminate].
    injection Hi as Hi. exact (prog_not_raise k s e Hi). }
  assert (Hret : forall i result, (prog k <$> shapes) !! i = Some (Ret result) ->
            exists r, result = Some r /\ warm k c0 c' r).
  { intros i result Hi. rewrite list_lookup_fmap in Hi.
    destruct (shapes !! i) as [s|] eqn:Hs; [|discriminate].
    injection Hi as Hi. destruct (prog_ret k s result Hi) as (r & -> & ->).
    exists r. split; [reflexivity|]. exact (inv_done k c0 _ _ _ _ HInv Hs). }
  split.
  { intros i j ri rj Hi Hj.
    destruct (Hret i ri Hi) as (r & -> & Hr & _).
    destruct (Hret j rj Hj) as (r' & -> & Hr' & _).
    split; [congruence|]. exists r. split; [reflexivity | exact Hr]. }
  split.
  { intros (i & p & Hi & Hfinal). rewrite list_lookup_fmap in Hi.
    destruct (shapes !! i) as [s|] eqn:Hs; [|discriminate].
    injection Hi as <-.
    apply (inv_progress k c0 _ _ i s HInv Hs).
    intros r ->. discriminate. }
  split.
  { intros Hall.
    assert (Hdone : forall i s, shapes !! i = Some s -> exists r, s = Done r).
    { intros i s Hs.
      assert (Hfinal : is_final (prog k s) = true).
      { apply (Hall i). rewrite list_lookup_fmap, Hs. reflexivity. }
      destruct s as [| | |[row|]|self|self|self]; try discriminate. eauto. }
    destruct shapes as [|s0 rest] eqn:Hshapes; [simpl in Hlen; lia|].
    destruct (Hdone O s0 eq_refl) as (r & ->).
    rewrite <- Hshapes in *.
    assert (H0 : shapes !! O = Some (Done r)) by (rewrite Hshapes; reflexivity).
    pose proof (inv_done k c0 _ _ _ _ HInv H0) as (Hr & Hq).
    exists r. split; [|split; [exact Hr | exact Hq]].
    rewrite <- Hlen, <- (length_fmap (prog k) shapes).
    symmetry. apply replicate_as_Forall. split; [reflexivity|].
    apply Forall_lookup. intros i p Hi.
    rewrite list_lookup_fmap in Hi.
    destruct (shapes !! i) as [s|] eqn:Hs; [|discriminate].
    injection Hi as <-.
    destruct (Hdone i s Hs) as (r' & ->).
    pose proof (inv_done k c0 _ _ _ _ HInv Hs) as (Hr' & _).
    cbn. congruence. }
  intros k' create Hne Hfree'.
  apply run_get_by_tgid_free.
  destruct HInv as (Hlocks & _).
  intros Hin. apply Hlocks in Hin.
  apply elem_of_union in Hin as [Hin|Hin].
  - apply elem_of_singleton in Hin. congruence.
  - contradiction.
Qed.

End Coalesced.

Section CoalescedRun.
Import Cache Coalescing.

Ltac answer_task i :=
  eapply steps_S;
  [eapply (step_answer _ _ i); [reflexivity | reflexivity] |].
Ltac resume_task i :=
  eapply steps_S;
  [eapply (step_resume _ _ i);
   [reflexivity | reflexivity | reflexivity | reflexivity] |].

(** Two tasks ask for account 42 with nothing cached and an empty table.
    The first takes the lock, finds no row, and creates the puppet; the
    second then takes the lock and finds it in the cache. *)
Lemma two_tasks_run :
  exists c,
    steps 8 (Fixtures.empty_class, replicate 2 (get_by_tgid (Some 42) true))
          (c, [Ret (Some 0%nat); Ret (Some 0%nat)]).
Proof.
  eexists.
  answer_task 0%nat. resume_task 0%nat. answer_task 0%nat. resume_task 0%nat.
  answer_task 0%nat. resume_task 0%nat. answer_task 1%nat. resume_task 1%nat.
  apply steps_O.
Qed.

Lemma get_by_tgid_coalesces_witness :
  exists c r,
    steps 8 (Fixtures.empty_class, replicate 2 (get_by_tgid (Some 42) true))
          (c, [Ret (Some 0%nat); Ret (Some 0%nat)])
    /\ [Ret (Some 0%nat); Ret (Some 0%nat)] = replicate 2 (Ret (Some r))
    /\ by_tgid c !! 42 = Some r
    /\ queries c = [fetchrow 42; execute_insert (new_puppet 42)].
Proof.
  destruct two_tasks_run as (c & Hrun).
  destruct (get_by_tgid_coalesces 42 2 8 Fixtures.empty_class c
              [Ret (Some 0%nat); Ret (Some 0%nat)])
    as (_ & _ & _ & _ & _ & _ & Hfinal & _).
  - lia.
  - reflexivity.
  - simpl. apply not_elem_of_empty.
  - intros row Hrow. simpl in Hrow. rewrite lookup_empty in Hrow. discriminate.
  - exact Hrun.
  - destruct Hfinal as (r & Htasks & Hcache & Hq).
    + intros [|[|i]] p Hp; simpl in Hp; try discriminate;
        injection Hp as <-; reflexivity.
    + exists c, r. repeat split; assumption.
Defined.

End CoalescedRun.

(** * Further properties *)

(** ** Name normalization *)

Lemma lstrip_by_all (drop : char -> bool) (s : str) :
  Forall (fun c => drop c = true) s -> lstrip_by drop s = [].
Proof.
  induction 1 as [|c s Hc _ IH]; simpl; [reflexivity|]. rewrite Hc. exact IH.
Qed.

Lemma lstrip_by_keep (drop : char -> bool) (s : str) :
  (forall c rest, s = c :: rest -> drop c = false) -> lstrip_by drop s = s.
Proof.
  destruct s as [|c s]; simpl; [reflexivity|].
  intros H. rewrite (H c s eq_refl). reflexivity.
Qed.

Lemma rstrip_by_keep (drop : char -> bool) (s : str) :
  (forall c front, s = front ++ [c] -> drop c = false) -> rstrip_by drop s = s.
Proof.
  intros H. unfold rstrip_by. rewrite lstrip_by_keep.
  - apply rev_involutive.
  - intros c rest Hrev. apply (H c (rev rest)).
    rewrite <- (rev_involutive s), Hrev. reflexivity.
Qed.

Lemma filter_keeps_all {A} (f : A -> bool) (l : list A) :
  Forall (fun x => f x = true) l -> List.filter f l = l.
Proof.
  induction 1 as [|x l Hx _ IH]; simpl; [reflexivity|]. rewrite Hx, IH. reflexivity.
Qed.

Lemma filter_is_sublist {A} (f : A -> bool) (l : list A) :
  sublist (List.filter f l) l.
Proof.
  induction l as [|x l IH]; simpl; [constructor|].
  destruct (f x); [apply sublist_skip | apply sublist_cons]; exact IH.
Qed.

(** X1: [_filter_name] only removes characters. *)
Theorem filter_name_sublist (name : option str) :
  sublist (_filter_name name) (default [] name).
Proof.
  destruct name as [name|]; [|constructor].
  rewrite filter_name_some. cbn [default].
  transitivity (strip_chars whitespace name); [apply filter_is_sublist|].
  destruct (strip_by_spec (mem whitespace) name) as (pre & post & Hname & _).
  rewrite Hname at 2.
  apply sublist_inserts_l, sublist_inserts_r. reflexivity.
Qed.

(** X2: a name that is already clean is returned as it is. *)
Theorem filter_name_clean (name : str) :
  (forall c rest, name = c :: rest -> mem whitespace c = false) ->
  (forall c front, name = front ++ [c] -> mem whitespace c = false) ->
  Forall (fun c => category_Cf c = false \/ c = ZWJ \/ c = ZWNJ) name ->
  _filter_name (Some name) = name.
Proof.
  intros Hhead Hlast Hcf. rewrite filter_name_some.
  unfold strip_chars, strip_by.
  rewrite (lstrip_by_keep _ _ Hhead), (rstrip_by_keep _ _ Hlast).
  apply filter_keeps_all.
  eapply Forall_impl; [exact Hcf|]. intros c Hc. cbn beta in Hc.
  rewrite keeps_spec.
  destruct Hc as [->|[->| ->]]; reflexivity.
Qed.

Lemma filter_name_clean_witness :
  _filter_name (Some (lit "A" ++ [ZWJ] ++ lit "B")) = lit "A" ++ [ZWJ] ++ lit "B".
Proof.
  apply (filter_name_clean (lit "A" ++ [ZWJ] ++ lit "B")).
  - intros c rest [= <- _]. reflexivity.
  - intros c front H.
    assert (Hc : last (front ++ [c]) = Some c) by apply last_snoc.
    rewrite <- H in Hc. injection Hc as <-. reflexivity.
  - change (lit "A" ++ [ZWJ] ++ lit "B") with [65; 0x200d; 66]%N.
    repeat (apply List.Forall_cons;
            [first [left; reflexivity | right; left; reflexivity] |]).
    apply List.Forall_nil.
Defined.

(** X3: a name made only of characters of the stripped set is empty. *)
Theorem filter_name_blank (name : str) :
  Forall (fun c => mem whitespace c = true) name ->
  _filter_name (Some name) = [].
Proof.
  intros Hall. rewrite filter_name_some. unfold strip_chars, strip_by.
  rewrite (lstrip_by_all _ _ Hall). reflexivity.
Qed.

Lemma filter_name_blank_witness :
  _filter_name (Some [0x20; 0x200d; 0xfeff; 0x09]%N) = [].
Proof.
  apply (filter_name_blank [0x20; 0x200d; 0xfeff; 0x09]%N).
  repeat constructor.
Defined.

(** ** Display-name resolution *)

Lemma str_of_int_nonempty (n : Z) : str_of_int n <> [].
Proof.
  unfold str_of_int, lit. intros H.
  apply (f_equal (@length char)) in H. rewrite length_map in H.
  revert H. unfold NilZero.string_of_int, NilZero.string_of_uint.
  destruct (Z.to_int n) as [[]|[]]; discriminate.
Qed.

(** Preferences whose value is empty are passed over, one point each. *)
Lemma walk_preferences_skip d skipped tail :
  Forall (fun p => exists v, getitem d p = Some v /\ truthy v = false) skipped ->
  forall name quality,
  exists name',
    walk_preferences d (skipped ++ tail) name quality
    = walk_preferences d tail name' (quality - Z.of_nat (length skipped))
    /\ (truthy name = false -> truthy name' = false).
Proof.
  induction 1 as [|p skipped (v & Hv & Hfalsy) _ IH]; intros name quality.
  - exists name. cbn [app length]. rewrite Z.sub_0_r. split; [reflexivity | auto].
  - cbn [app walk_preferences]. rewrite Hv, Hfalsy.
    destruct (IH v (quality - 1)) as (name' & -> & Hkeep).
    exists name'. split.
    + f_equal. cbn [length]. lia.
    + intros _. apply Hkeep. exact Hfalsy.
Qed.

(** X4: the first preference with a non-empty value wins, with one point
    off 99 for each preference passed over; the preferences after it are
    not looked at. *)
Theorem first_nonempty_preference_wins (config : Config) (info : tl.User)
    (enable_format : bool) (skipped rest : list string) (preference : string)
    (value : str) :
  tl.deleted info = false ->
  displayname_preference config = skipped ++ preference :: rest ->
  Forall (fun p => exists v,
            getitem (data info (_filter_name (tl.first_name info))
                               (_filter_name (tl.last_name info))) p = Some v
            /\ truthy v = false) skipped ->
  getitem (data info (_filter_name (tl.first_name info))
                     (_filter_name (tl.last_name info))) preference
  = Some (Some value) ->
  value <> [] ->
  get_displayname config info enable_format
  = Returns ((if enable_format
              then format_full (displayname_template config) value
              else value),
             99 - Z.of_nat (length skipped)).
Proof.
  intros Hdel Hprefs Hskipped Hvalue Hne. unfold get_displayname.
  rewrite Hprefs.
  destruct (walk_preferences_skip _ _ (preference :: rest) Hskipped None 99)
    as (name' & -> & _).
  cbn [walk_preferences]. rewrite Hvalue.
  destruct value as [|c value]; [contradiction|]. cbn [truthy].
  rewrite Hdel. reflexivity.
Qed.

Lemma first_nonempty_preference_wins_witness :
  get_displayname Fixtures.config Scenarios.nameless true
  = Returns (lit "alice (Telegram)", 98).
Proof.
  apply (first_nonempty_preference_wins Fixtures.config Scenarios.nameless true
           ["full name"%string] ["phone number"%string] "username"%string
           (lit "alice")).
  - reflexivity.
  - reflexivity.
  - apply List.Forall_cons; [|apply List.Forall_nil].
    exists (Some []). split; reflexivity.
  - reflexivity.
  - discriminate.
Defined.

(** X5: when every preference has an empty value, and also when there is
    no preference at all, the name of an account that is not deleted is its
    id in decimal, with quality 0. *)
Theorem displayname_falls_back_to_id (config : Config) (info : tl.User)
    (enable_format : bool) :
  tl.deleted info = false ->
  Forall (fun p => exists v,
            getitem (data info (_filter_name (tl.first_name info))
                               (_filter_name (tl.last_name info))) p = Some v
            /\ truthy v = false) (displayname_preference config) ->
  get_displayname config info enable_format
  = Returns ((if enable_format
              then format_full (displayname_template config) (str_of_int (tl.id info))
              else str_of_int (tl.id info)), 0).
Proof.
  intros Hdel Hall. unfold get_displayname.
  rewrite <- (app_nil_r (displayname_preference config)).
  destruct (walk_preferences_skip _ _ [] Hall None 99) as (name' & -> & Hfalsy).
  cbn [walk_preferences]. rewrite Hdel, (Hfalsy eq_refl). reflexivity.
Qed.

Lemma displayname_falls_back_to_id_witness :
  get_displayname Fixtures.config Scenarios.anonymous false
  = Returns (lit "42", 0).
Proof.
  apply (displayname_falls_back_to_id Fixtures.config Scenarios.anonymous false).
  - reflexivity.
  - repeat (apply List.Forall_cons;
            [first [exists (Some []); split; reflexivity
                   | exists None; split; reflexivity] |]).
    apply List.Forall_nil.
Defined.

Lemma walk_preferences_bounds d preferences :
  forall name quality name' quality',
    walk_preferences d preferences name quality = Returns (name', quality') ->
    (truthy name' = false \/ truthy name = true \/
     quality - Z.of_nat (length preferences) < quality' <= quality).
Proof.
  induction preferences as [|p rest IH]; intros name quality name' quality' H.
  - cbn in H. injection H as <- <-. destruct (truthy name); auto.
  - cbn [walk_preferences] in H.
    destruct (getitem d p) as [v|]; [|discriminate].
    destruct (truthy v) eqn:Hv.
    + injection H as <- <-. right. right. cbn [length]. lia.
    + destruct (IH _ _ _ _ H) as [Hn|[Hn|Hq]]; [auto | congruence |].
      right. right. cbn [length]. lia.
Qed.

(** X6: the name [get_displayname] returns is never empty. Its quality is
    99 for a deleted account; otherwise it is 0 or above
    [99 - len(preferences)]; it is at most 99 in all cases, and not negative
    as long as the preference list has at most 100 entries. *)
Theorem displayname_nonempty_and_quality_range (config : Config) (info : tl.User)
    (enable_format : bool) (name : str) (quality : Z) :
  get_displayname config info enable_format = Returns (name, quality) ->
  name <> []
  /\ quality <= 99
  /\ (tl.deleted info = true -> quality = 99)
  /\ (tl.deleted info = false ->
      quality = 0
      \/ 99 - Z.of_nat (length (displayname_preference config)) < quality)
  /\ ((length (displayname_preference config) <= 100)%nat -> 0 <= quality).
Proof.
  unfold get_displayname.
  destruct (walk_preferences _ _ None 99) as [[found q]|e] eqn:Hwalk; [|discriminate].
  assert (Hformat : forall s : str, s <> [] ->
            (if enable_format then format_full (displayname_template config) s else s)
            <> []).
  { intros s Hs. destruct enable_format; [|exact Hs].
    unfold format_full. intros H.
    apply app_eq_nil in H as [_ H]. apply app_eq_nil in H as [H _]. exact (Hs H). }
  destruct (tl.deleted info).
  - intros [= <- <-]. split; [apply Hformat; discriminate|].
    repeat split; try discriminate; lia.
  - destruct (truthy found) eqn:Hfound; cbn [negb].
    + intros [= <- <-].
      destruct (walk_preferences_bounds _ _ _ _ _ _ Hwalk) as [H|[H|H]];
        try (cbn in H; congruence).
      split.
      { apply Hformat. destruct found as [[|c l]|]; try discriminate. }
      repeat split; try discriminate; lia.
    + intros [= <- <-]. split; [apply Hformat; apply str_of_int_nonempty|].
      repeat split; try discriminate; lia.
Qed.

(** X7: [get_displayname] raises nothing but [KeyError], and only when
    some configured preference is not a key of [data]. *)
Theorem displayname_raises_only_for_unknown_preference (config : Config)
    (info : tl.User) (enable_format : bool) (e : Exn) :
  get_displayname config info enable_format = Raises e ->
  e = KeyError
  /\ Exists (fun preference => ~ In preference preference_kinds)
            (displayname_preference config).
Proof.
  unfold get_displayname.
  assert (Hwalk : forall preferences name quality,
            walk_preferences
              (data info (_filter_name (tl.first_name info))
                         (_filter_name (tl.last_name info)))
              preferences name quality = Raises e ->
            e = KeyError
            /\ Exists (fun preference => ~ In preference preference_kinds)
                      preferences).
  { induction preferences as [|p rest IH]; intros name quality H.
    - discriminate.
    - cbn [walk_preferences] in H.
      destruct (getitem _ p) as [v|] eqn:Hp.
      + destruct (truthy v); [discriminate|].
        destruct (IH _ _ H) as (He & Hex). split; [exact He|].
        apply List.Exists_cons_tl. exact Hex.
      + injection H as <-. split; [reflexivity|].
        apply List.Exists_cons_hd. intros Hin.
        destruct (getitem_known info (_filter_name (tl.first_name info))
                    (_filter_name (tl.last_name info)) p Hin) as (v & Hv).
        congruence. }
  destruct (walk_preferences _ _ None 99) as [[found q]|e'] eqn:Hrun.
  - destruct (tl.deleted info); [discriminate|].
    destruct (negb (truthy found)); discriminate.
  - intros [= ->]. exact (Hwalk _ _ _ Hrun).
Qed.

Lemma displayname_raises_only_for_unknown_preference_witness :
  KeyError = KeyError
  /\ Exists (fun preference => ~ In preference preference_kinds)
            (displayname_preference Fixtures.config_unknown_preference).
Proof.
  apply (displayname_raises_only_for_unknown_preference
           Fixtures.config_unknown_preference Scenarios.anonymous false KeyError).
  reflexivity.
Defined.

Lemma displayname_nonempty_and_quality_range_witness :
  lit "alice (Telegram)" <> []
  /\ 98 <= 99
  /\ (tl.deleted Scenarios.nameless = true -> 98 = 99)
  /\ (tl.deleted Scenarios.nameless = false ->
      98 = 0
      \/ 99 - Z.of_nat (length (displayname_preference Fixtures.config)) < 98)
  /\ ((length (displayname_preference Fixtures.config) <= 100)%nat -> 0 <= 98).
Proof.
  apply (displayname_nonempty_and_quality_range Fixtures.config Scenarios.nameless
           true (lit "alice (Telegram)") 98).
  reflexivity.
Defined.

(** ** Reconciliation: what the sub-updates leave alone *)

Lemma record_eta_displayname (p : db.Puppet) :
  p = db.with_displayname_quality (db.displayname_quality p)
        (db.with_displayname_source (db.displayname_source p)
           (db.with_displayname_contact (db.displayname_contact p)
              (db.with_displayname (db.displayname p) p))).
Proof. destruct p; reflexivity. Qed.

(** X8: with [disable_updates] set neither sub-update does anything, and
    [update_info] only takes over the username and [is_bot], saving when
    the username changed. *)
Theorem updates_disabled (world : World) (config : Config)
    (source : au.AbstractUser) (info : tl.Info) (photo : tl.Photo)
    (profile : tl.User) (st : Frame) :
  db.disable_updates (self st) = true ->
  update_displayname world config source info st = (Returns false, st)
  /\ update_avatar world config source photo st = (Returns false, st)
  /\ update_info world config source profile st
     = if bool_decide (db.username (self st) = tl.username profile)
       then (Returns tt,
             {| self := db.with_is_bot (Some (tl.bot profile)) (self st);
                changed := false; calls := calls st |})
       else (on_save world
               (db.with_is_bot (Some (tl.bot profile))
                  (db.with_username (tl.username profile) (self st))),
             {| self := db.with_is_bot (Some (tl.bot profile))
                          (db.with_username (tl.username profile) (self st));
                changed := true;
                calls := calls st
                  ++ [save (db.with_is_bot (Some (tl.bot profile))
                              (db.with_username (tl.username profile) (self st)))] |}).
Proof.
  intros Hdis. split; [|split].
  - unfold update_displayname, displayname_eligibility, bind, get_self, ret.
    rewrite Hdis. reflexivity.
  - unfold update_avatar, bind, get_self, ret. rewrite Hdis. reflexivity.
  - unfold update_info, bind, set_changed, get_self, when, assign, ret,
      get_changed, await.
    cbn [self changed calls].
    destruct (bool_decide (db.username (self st) = tl.username profile));
      cbn [negb self changed calls].
    + rewrite Hdis. reflexivity.
    + assert (Hdis' : db.disable_updates
                        (db.with_username (tl.username profile) (self st)) = true)
        by exact Hdis.
      rewrite Hdis'. cbn [negb self changed calls]. reflexivity.
Qed.

Lemma updates_disabled_witness :
  update_displayname (Fixtures.world (Returns tt)) Fixtures.config Fixtures.relaybot_7
    (tl.a_User (Fixtures.alice false false (tl.UserProfilePhoto 9)))
    (Fixtures.frame Scenarios.frozen)
  = (Returns false, Fixtures.frame Scenarios.frozen).
Proof.
  apply (updates_disabled (Fixtures.world (Returns tt)) Fixtures.config
           Fixtures.relaybot_7
           (tl.a_User (Fixtures.alice false false (tl.UserProfilePhoto 9)))
           (tl.UserProfilePhoto 9)
           (Fixtures.alice false false (tl.UserProfilePhoto 9))
           (Fixtures.frame Scenarios.frozen)).
  reflexivity.
Defined.

(** *** Relations every step of a method keeps *)

Section Preserves.
Variable R : Frame -> Frame -> Prop.
Hypothesis R_refl : forall st, R st st.
Hypothesis R_trans : forall a b c, R a b -> R b c -> R a c.

Lemma preserves_pure {A} (o : Outcome A) : preserves R (fun st => (o, st)).
Proof. intros st r st' [= _ <-]. apply R_refl. Qed.

Lemma preserves_ret {A} (a : A) : preserves R (ret a).
Proof. apply preserves_pure. Qed.

Lemma preserves_raise {A} (e : Exn) : preserves R (@raise A e).
Proof. apply preserves_pure. Qed.

Lemma preserves_lift {A} (o : Outcome A) : preserves R (lift o).
Proof. apply preserves_pure. Qed.

Lemma preserves_get_self : preserves R get_self.
Proof. intros st r st' [= _ <-]. apply R_refl. Qed.

Lemma preserves_get_changed : preserves R get_changed.
Proof. intros st r st' [= _ <-]. apply R_refl. Qed.

Lemma preserves_bind {A B} (m : M A) (k : A -> M B) :
  preserves R m -> (forall a, preserves R (k a)) -> preserves R (bind m k).
Proof.
  intros Hm Hk st r st'. unfold bind.
  destruct (m st) as [[a|e] st1] eqn:Hrun.
  - intros H. eapply R_trans; [exact (Hm _ _ _ Hrun) | exact (Hk _ _ _ _ H)].
  - intros [= _ <-]. exact (Hm _ _ _ Hrun).
Qed.

Lemma preserves_try_except {A} (body : M A) catches (handler : M A) :
  preserves R body -> preserves R handler ->
  preserves R (try_except body catches handler).
Proof.
  intros Hb Hh st r st'. unfold try_except.
  destruct (body st) as [[a|e] st1] eqn:Hrun.
  - intros [= _ <-]. exact (Hb _ _ _ Hrun).
  - destruct (catches e).
    + intros H. eapply R_trans; [exact (Hb _ _ _ Hrun) | exact (Hh _ _ _ H)].
    + intros [= _ <-]. exact (Hb _ _ _ Hrun).
Qed.

Lemma preserves_when (c : bool) (m : M unit) :
  preserves R m -> preserves R (when c m).
Proof. intros Hm. destruct c; [exact Hm | apply preserves_ret]. Qed.

End Preserves.

Ltac preserves_step assign_rule await_rule :=
  first
    [ assign_rule
    | await_rule
    | apply preserves_bind; [assumption | | intros ?]
    | apply preserves_try_except; [assumption | |]
    | apply preserves_when; [assumption |]
    | apply preserves_ret; assumption
    | apply preserves_raise; assumption
    | apply preserves_lift; assumption
    | apply preserves_get_self; assumption
    | apply preserves_get_changed; assumption
    | match goal with
      | |- preserves _ (if ?b then _ else _) => destruct b
      | |- preserves _ (match ?x with _ => _ end) => destruct x
      | |- preserves _ (let (_, _) := ?x in _) => destruct x
      end ].

Section FrameStep.
Variable same : db.Puppet -> db.Puppet -> Prop.
Variable allowed : Call -> Prop.
Hypothesis same_refl : forall p, same p p.
Hypothesis same_trans : forall a b c, same a b -> same b c -> same a c.

Lemma frame_step_refl st : frame_step same allowed st st.
Proof.
  split; [apply same_refl|]. split; [reflexivity|].
  exists []. split; [symmetry; apply app_nil_r | constructor].
Qed.

Lemma frame_step_trans a b c :
  frame_step same allowed a b -> frame_step same allowed b c ->
  frame_step same allowed a c.
Proof.
  intros (Hf1 & Hc1 & l1 & Hl1 & Hp1) (Hf2 & Hc2 & l2 & Hl2 & Hp2).
  split; [eapply same_trans; eassumption|]. split; [congruence|].
  exists (l1 ++ l2). split.
  - rewrite Hl2, Hl1, app_assoc. reflexivity.
  - apply Forall_app. split; assumption.
Qed.

Lemma frame_step_assign f :
  (forall p, same p (f p)) -> preserves (frame_step same allowed) (assign f).
Proof.
  intros Hf s0 r0 s1 [= _ <-]. split; [apply Hf|]. split; [reflexivity|].
  exists []. split; [symmetry; apply app_nil_r | constructor].
Qed.

Lemma frame_step_await {A} (c : Call) (o : Outcome A) :
  allowed c -> preserves (frame_step same allowed) (await c o).
Proof.
  intros Hc s0 r0 s1 [= _ <-]. split; [apply same_refl|].
  split; [reflexivity|]. exists [c]. split; [reflexivity|].
  constructor; [exact Hc | constructor].
Qed.

End FrameStep.

Lemma same_outside_displayname_refl p : same_outside_displayname p p.
Proof. repeat split. Qed.

Lemma same_outside_displayname_trans a b c :
  same_outside_displayname a b -> same_outside_displayname b c ->
  same_outside_displayname a c.
Proof. unfold same_outside_displayname. intuition congruence. Qed.

Lemma same_outside_photo_refl p : same_outside_photo p p.
Proof. repeat split. Qed.

Lemma same_outside_photo_trans a b c :
  same_outside_photo a b -> same_outside_photo b c -> same_outside_photo a c.
Proof. unfold same_outside_photo. intuition congruence. Qed.

Lemma update_displayname_frame_step world config source info :
  preserves (frame_step same_outside_displayname displayname_call)
            (update_displayname world config source info).
Proof.
  pose proof (frame_step_refl _ displayname_call same_outside_displayname_refl)
    as Hrefl.
  pose proof (frame_step_trans _ displayname_call same_outside_displayname_trans)
    as Htrans.
  unfold update_displayname, displayname_eligibility, displayname_commit.
  repeat preserves_step
    ltac:(apply frame_step_assign; intros []; repeat split)
    ltac:(apply frame_step_await;
          [exact same_outside_displayname_refl | exact I]).
Qed.

Lemma update_avatar_frame_step world config source photo :
  preserves (frame_step same_outside_photo avatar_call)
            (update_avatar world config source photo).
Proof.
  pose proof (frame_step_refl _ avatar_call same_outside_photo_refl) as Hrefl.
  pose proof (frame_step_trans _ avatar_call same_outside_photo_trans) as Htrans.
  unfold update_avatar.
  repeat preserves_step
    ltac:(apply frame_step_assign; intros []; repeat split)
    ltac:(apply frame_step_await; [exact same_outside_photo_refl | exact I]).
Qed.

(** X9: [update_displayname] assigns nothing but [displayname],
    [displayname_source], [displayname_contact] and [displayname_quality];
    it leaves [changed] alone, keeps the calls made before, and adds only
    [get_entity] and [set_displayname] calls, whatever it returns or
    raises. *)
Theorem update_displayname_frame (world : World) (config : Config)
    (source : au.AbstractUser) (info : tl.Info) (st st' : Frame)
    (r : Outcome bool) :
  update_displayname world config source info st = (r, st') ->
  same_outside_displayname (self st) (self st')
  /\ changed st' = changed st
  /\ exists added,
       calls st' = calls st ++ added /\ Forall displayname_call added.
Proof.
  intros Hrun.
  exact (update_displayname_frame_step world config source info st r st' Hrun).
Qed.

Lemma update_displayname_frame_witness :
  exists r st',
    update_displayname (Fixtures.world (Returns tt)) Fixtures.config
      Fixtures.user_7 (tl.a_User (Fixtures.alice true false tl.PhotoNone))
      (Fixtures.frame (Fixtures.puppet (Some (lit "Bob")) (Some 7) 99 None))
    = (r, st')
    /\ same_outside_displayname
         (Fixtures.puppet (Some (lit "Bob")) (Some 7) 99 None) (self st')
    /\ exists added, calls st' = added /\ Forall displayname_call added.
Proof.
  destruct (update_displayname (Fixtures.world (Returns tt)) Fixtures.config
              Fixtures.user_7 (tl.a_User (Fixtures.alice true false tl.PhotoNone))
              (Fixtures.frame
                 (Fixtures.puppet (Some (lit "Bob")) (Some 7) 99 None)))
    as [r st'] eqn:Hrun.
  exists r, st'. split; [reflexivity|].
  destruct (update_displayname_frame _ _ _ _ _ _ _ Hrun)
    as (Hsame & _ & added & Hcalls & Hadded).
  split; [exact Hsame|]. exists added. split; [exact Hcalls | exact Hadded].
Defined.

(** X10: [update_avatar] assigns nothing but [photo_id]; it leaves
    [changed] alone, keeps the calls made before, and adds only
    [get_input_entity], [transfer_file_to_matrix] and [set_avatar_url]
    calls, whatever it returns or raises. *)
Theorem update_avatar_frame (world : World) (config : Config)
    (source : au.AbstractUser) (photo : tl.Photo) (st st' : Frame)
    (r : Outcome bool) :
  update_avatar world config source photo st = (r, st') ->
  same_outside_photo (self st) (self st')
  /\ changed st' = changed st
  /\ exists added,
       calls st' = calls st ++ added /\ Forall avatar_call added.
Proof.
  intros Hrun.
  exact (update_avatar_frame_step world config source photo st r st' Hrun).
Qed.

Lemma update_avatar_frame_witness :
  exists r st',
    update_avatar (Fixtures.world (Returns tt)) Fixtures.config
      Fixtures.user_7 (tl.UserProfilePhoto 9)
      (Fixtures.frame (Fixtures.puppet (Some (lit "Bob")) (Some 7) 99 None))
    = (r, st')
    /\ same_outside_photo
         (Fixtures.puppet (Some (lit "Bob")) (Some 7) 99 None) (self st')
    /\ exists added, calls st' = added /\ Forall avatar_call added.
Proof.
  destruct (update_avatar (Fixtures.world (Returns tt)) Fixtures.config
              Fixtures.user_7 (tl.UserProfilePhoto 9)
              (Fixtures.frame
                 (Fixtures.puppet (Some (lit "Bob")) (Some 7) 99 None)))
    as [r st'] eqn:Hrun.
  exists r, st'. split; [reflexivity|].
  destruct (update_avatar_frame _ _ _ _ _ _ _ Hrun)
    as (Hsame & _ & added & Hcalls & Hadded).
  split; [exact Hsame|]. exists added. split; [exact Hcalls | exact Hadded].
Defined.

(** ** Reconciliation: quality and repetition *)




(** After the eligibility checks [displayname_contact] is the [contact]
    flag of the profile. *)
Lemma displayname_eligibility_contact world source u st because u1 st1 :
  displayname_eligibility world source (tl.a_User u) st
  = (Returns (Some (because, u1)), st1) ->
  u1 = u
  /\ db.displayname_contact (self st1) = tl.contact u
  /\ db.disable_updates (self st) = false
  /\ calls st1 = calls st /\ changed st1 = changed st
  /\ self st1 = db.with_displayname_contact (tl.contact u) (self st).
Proof.
  run_method.
  destruct (db.disable_updates (self st)) eqn:Hdis; [discriminate|].
  destruct (allow_because (self st) source (tl.a_User u)); [|discriminate].
  cbn [self changed calls].
  destruct (tl.contact u), (db.displayname_contact (self st)) eqn:Hc,
    (truthy (db.displayname (self st)));
    cbn [negb]; intros H; inversion H; subst; clear H;
    cbn [self changed calls db.displayname_contact db.with_displayname_contact];
    repeat split;
    try (rewrite <- Hc; apply with_displayname_contact_id);
    try (rewrite <- Hc; reflexivity).
Qed.

Lemma overwrites_same (p : db.Puppet) (displayname : str) (quality : Z) :
  db.displayname p = Some displayname -> overwrites p displayname quality = false.
Proof.
  intros H. unfold overwrites. rewrite H.
  rewrite (bool_decide_eq_true_2 _ eq_refl). reflexivity.
Qed.

(** X12: once [update_displayname] has committed a name and pushed it, the
    same update again, from the same source with the same profile, makes no
    call and changes nothing. It returns [False], except for the relay bot,
    for which it stamps the source again and returns [True]. *)
Theorem update_displayname_idempotent (world : World) (config : Config)
    (source : au.AbstractUser) (u : tl.User) (st st1 : Frame)
    (because : string) (displayname : str) (quality : Z) :
  displayname_eligibility world source (tl.a_User u) st
  = (Returns (Some (because, u)), st1) ->
  get_displayname config u true = Returns (displayname, quality) ->
  overwrites (self st1) displayname quality = true ->
  on_set_displayname world (slice_to (displayname_max_length config) displayname)
  = Returns tt ->
  exists st2,
    update_displayname world config source (tl.a_User u) st = (Returns true, st2)
    /\ update_displayname world config source (tl.a_User u) st2
       = (Returns (au.is_relaybot source), st2).
Proof.
  intros Hel Hget Hov Hpush.
  destruct (displayname_eligibility_contact _ _ _ _ _ _ _ Hel)
    as (_ & Hcontact & Hdis & _ & _ & Hself).
  rewrite (update_displayname_commits _ _ _ _ _ _ _ _ _ _ Hel Hget Hov).
  cbv zeta. rewrite Hpush. eexists. split; [reflexivity|].
  unfold update_displayname, displayname_eligibility, bind, get_self.
  cbn [self changed calls]. rewrite Hself.
  destruct (self st) as [i reg n s c q d un ph b cm at_ nb bu]. cbn in Hdis |- *.
  rewrite Hdis. unfold allow_because. cbn.
  rewrite (bool_decide_eq_true_2 (Some (au.tgid source) = Some (au.tgid source)) eq_refl).
  assert (Hallowed :
            exists reason,
              (if au.is_relaybot source || au.is_bot source
               then Some "user is bot"%string
               else Some "user is the primary source"%string) = Some reason)
    by (destruct (_ || _); eauto).
  destruct Hallowed as (reason & ->).
  unfold ret, assign. cbn [self changed calls].
  destruct (tl.contact u); cbn -[get_displayname overwrites slice_to];
    unfold displayname_commit, bind, lift, get_self; rewrite Hget;
    cbn -[overwrites]; (rewrite overwrites_same by reflexivity);
    destruct (au.is_relaybot source); reflexivity.
Qed.

Lemma update_displayname_idempotent_witness :
  exists st2,
    update_displayname (Fixtures.world (Returns tt)) Fixtures.config
      Fixtures.user_7 (tl.a_User (Fixtures.alice true false tl.PhotoNone))
      (Fixtures.frame (Fixtures.puppet (Some (lit "Bob")) (Some 7) 99 None))
    = (Returns true, st2)
    /\ update_displayname (Fixtures.world (Returns tt)) Fixtures.config
         Fixtures.user_7 (tl.a_User (Fixtures.alice true false tl.PhotoNone)) st2
       = (Returns (au.is_relaybot Fixtures.user_7), st2).
Proof.
  apply (update_displayname_idempotent (Fixtures.world (Returns tt))
           Fixtures.config Fixtures.user_7
           (Fixtures.alice true false tl.PhotoNone)
           (Fixtures.frame (Fixtures.puppet (Some (lit "Bob")) (Some 7) 99 None))
           (Fixtures.frame (Fixtures.puppet (Some (lit "Bob")) (Some 7) 99 None))
           "user is the primary source"%string
           (lit "Alice (Telegram)") 99);
    reflexivity.
Defined.

(** ** Avatar *)

Ltac run_cases :=
  repeat (cbn beta iota zeta;
          match goal with
          | |- context [if ?b then _ else _] => destruct b eqn:?
          | |- context [match ?x with tl.PhotoNone => _ | _ => _ end] => destruct x
          | |- context [match ?x with Returns _ => _ | Raises _ => _ end] =>
              destruct x as [?|?] eqn:?
          | |- context [match ?x with Some _ => _ | None => _ end] =>
              destruct x eqn:?
          | |- context [match ?x with MatrixError => _ | _ => _ end] => destruct x
          end).

(** X13: what the result of [update_avatar] means. [False] means no field
    was assigned and [set_avatar_url] was not called. [True] means the last
    call was [set_avatar_url]; the stored id is then empty, or it is the id
    of the incoming photo, and in that case the photo was transferred and
    the call that set it succeeded. *)
Theorem update_avatar_result (world : World) (config : Config)
    (source : au.AbstractUser) (photo : tl.Photo) (st st' : Frame) (b : bool) :
  update_avatar world config source photo st = (Returns b, st') ->
  (b = false ->
   self st' = self st
   /\ (calls st' = calls st
       \/ exists n,
            photo = tl.UserProfilePhoto n
            /\ calls st'
               = calls st ++ [get_input_entity (au.tgid source) (db.id (self st));
                              transfer_file_to_matrix (au.tgid source) n]))
  /\ (b = true ->
      exists before uri,
        calls st' = before ++ [set_avatar_url uri]
        /\ (db.photo_id (self st') = Some []
            \/ exists n,
                 photo = tl.UserProfilePhoto n
                 /\ db.photo_id (self st') = Some (str_of_int n)
                 /\ on_transfer_file_to_matrix world (au.tgid source) n
                    = Returns (Some uri)
                 /\ on_set_avatar_url world uri = Returns tt)).
Proof.
  unfold update_avatar, bind, ret, raise, get_self, assign, await, try_except,
    is_MatrixError.
  run_cases; intros H; inversion H; subst; clear H;
    (split; intros Hb; try discriminate);
    cbn [self changed calls].
  all: try (split; [reflexivity | left; reflexivity]).
  all: try (split; [reflexivity | right; eexists; split;
                                  [reflexivity | rewrite <- app_assoc; reflexivity]]).
  all: try (eexists; eexists; split;
            [first [reflexivity | rewrite <- !app_assoc; rewrite app_assoc; reflexivity]
            | first [left; reflexivity
                    | right; eexists; split; [reflexivity|];
                      split; [reflexivity|]; split; [eassumption|];
                      match goal with u : unit |- _ => destruct u end; assumption]]).
Qed.

Lemma update_avatar_result_witness :
  exists before uri,
    [get_input_entity 7 42; transfer_file_to_matrix 7 9;
     set_avatar_url (lit "mxc://example.org/abc")]
    = before ++ [set_avatar_url uri]
    /\ (Some (lit "9") = Some []
        \/ exists n,
             tl.UserProfilePhoto 9 = tl.UserProfilePhoto n
             /\ Some (lit "9") = Some (str_of_int n)
             /\ on_transfer_file_to_matrix (Fixtures.world (Returns tt)) 7 n
                = Returns (Some uri)
             /\ on_set_avatar_url (Fixtures.world (Returns tt)) uri = Returns tt).
Proof.
  apply (update_avatar_result (Fixtures.world (Returns tt)) Fixtures.config
           Fixtures.user_7 (tl.UserProfilePhoto 9)
           (Fixtures.frame (Fixtures.puppet None None 0 None))
           {| self := Fixtures.puppet None None 0 (Some (lit "9"));
              changed := false;
              calls := [get_input_entity 7 42; transfer_file_to_matrix 7 9;
                        set_avatar_url (lit "mxc://example.org/abc")] |}
           true);
    reflexivity.
Defined.

(** X14: when the incoming photo is the one stored, [update_avatar] does
    nothing, whatever the configuration: nothing is fetched or pushed
    again. *)
Theorem update_avatar_same_photo (world : World) (config : Config)
    (source : au.AbstractUser) (photo : tl.Photo) (st : Frame) :
  (exists n, photo = tl.UserProfilePhoto n
             /\ db.photo_id (self st) = Some (str_of_int n))
  \/ ((photo = tl.PhotoNone \/ photo = tl.UserProfilePhotoEmpty)
      /\ db.photo_id (self st) = Some []) ->
  update_avatar world config source photo st = (Returns false, st).
Proof.
  intros Hsame. unfold update_avatar, bind, get_self, ret.
  destruct (db.disable_updates (self st)); [reflexivity|].
  destruct Hsame as [(n & -> & Hid) | ([-> | ->] & Hid)]; rewrite Hid.
  - pose proof (str_of_int_nonempty n) as Hne.
    destruct (str_of_int n) as [|c l]; [contradiction|].
    cbn [truthy negb andb].
    rewrite (bool_decide_eq_true_2 _ eq_refl). reflexivity.
  - cbn [truthy negb andb]. destruct (allow_avatar_remove config); cbn [negb];
      [|reflexivity].
    rewrite (bool_decide_eq_true_2 _ eq_refl). reflexivity.
  - cbn [truthy negb andb]. destruct (allow_avatar_remove config); cbn [negb];
      [|reflexivity].
    rewrite (bool_decide_eq_true_2 _ eq_refl). reflexivity.
Qed.

Lemma update_avatar_same_photo_witness :
  update_avatar (Fixtures.world (Returns tt)) Fixtures.config Fixtures.user_7
    (tl.UserProfilePhoto 9)
    (Fixtures.frame (Fixtures.puppet None None 0 (Some (lit "9"))))
  = (Returns false, Fixtures.frame (Fixtures.puppet None None 0 (Some (lit "9")))).
Proof.
  apply (update_avatar_same_photo (Fixtures.world (Returns tt)) Fixtures.config
           Fixtures.user_7 (tl.UserProfilePhoto 9)
           (Fixtures.frame (Fixtures.puppet None None 0 (Some (lit "9"))))).
  left. exists 9. split; reflexivity.
Defined.

(** X15: with [bridge.allow_avatar_remove] on, an absent or empty photo
    clears a stored photo: one [set_avatar_url] call with the empty string
    is made, [photo_id] is the empty string afterwards whether the call
    succeeds or fails with a [MatrixError], and the method returns
    [True]. *)
Theorem avatar_removal_allowed (world : World) (config : Config)
    (source : au.AbstractUser) (photo : tl.Photo) (st : Frame) :
  allow_avatar_remove config = true ->
  db.disable_updates (self st) = false ->
  photo = tl.PhotoNone \/ photo = tl.UserProfilePhotoEmpty ->
  db.photo_id (self st) <> Some [] ->
  on_set_avatar_url world [] = Returns tt
  \/ on_set_avatar_url world [] = Raises MatrixError ->
  update_avatar world config source photo st
  = (Returns true,
     {| self := db.with_photo_id (Some []) (self st);
        changed := changed st;
        calls := calls st ++ [set_avatar_url []] |}).
Proof.
  intros Hallow Hdis Hphoto Hstored Hpush.
  unfold update_avatar, bind, get_self, ret. rewrite Hdis.
  destruct Hphoto as [-> | ->]; rewrite Hallow; cbn [truthy negb andb];
    rewrite (bool_decide_eq_false_2 _ Hstored); cbn [negb];
    unfold assign, try_except, await; cbn [self changed calls];
    destruct Hpush as [-> | ->]; reflexivity.
Qed.

Lemma avatar_removal_allowed_witness :
  update_avatar (Fixtures.world (Returns tt)) Scenarios.config_removal
    Fixtures.user_7 tl.UserProfilePhotoEmpty
    (Fixtures.frame (Fixtures.puppet None None 0 (Some (lit "9"))))
  = (Returns true,
     {| self := Fixtures.puppet None None 0 (Some []);
        changed := false;
        calls := [set_avatar_url []] |}).
Proof.
  apply (avatar_removal_allowed (Fixtures.world (Returns tt))
           Scenarios.config_removal Fixtures.user_7 tl.UserProfilePhotoEmpty
           (Fixtures.frame (Fixtures.puppet None None 0 (Some (lit "9"))))).
  - reflexivity.
  - reflexivity.
  - right. reflexivity.
  - discriminate.
  - left. reflexivity.
Defined.

(** ** [update_info] as a whole *)

Lemma info_step_refl st : info_step st st.
Proof.
  split; [repeat split|]. split; [reflexivity|]. split; [reflexivity|].
  exists []. split; [symmetry; apply app_nil_r | constructor].
Qed.

Lemma info_step_trans a b c : info_step a b -> info_step b c -> info_step a c.
Proof.
  intros (Hi1 & Hu1 & Hb1 & l1 & Hl1 & Hp1) (Hi2 & Hu2 & Hb2 & l2 & Hl2 & Hp2).
  split; [unfold same_identity in *; intuition congruence|].
  split; [congruence|]. split; [congruence|].
  exists (l1 ++ l2). split.
  - rewrite Hl2, Hl1, app_assoc. reflexivity.
  - apply Forall_app. split; assumption.
Qed.

Lemma update_displayname_info_step world config source info :
  preserves info_step (update_displayname world config source info).
Proof.
  intros st r st' H.
  destruct (update_displayname_frame_step _ _ _ _ _ _ _ H)
    as (Hsame & _ & added & Hcalls & Hadded).
  unfold same_outside_displayname in Hsame.
  split; [unfold same_identity; intuition congruence|].
  split; [intuition congruence|]. split; [intuition congruence|].
  exists added. split; [exact Hcalls|].
  eapply Forall_impl; [exact Hadded|]. intros c Hc. left. exact Hc.
Qed.

Lemma update_avatar_info_step world config source photo :
  preserves info_step (update_avatar world config source photo).
Proof.
  intros st r st' H.
  destruct (update_avatar_frame_step _ _ _ _ _ _ _ H)
    as (Hsame & _ & added & Hcalls & Hadded).
  unfold same_outside_photo in Hsame.
  split; [unfold same_identity; intuition congruence|].
  split; [intuition congruence|]. split; [intuition congruence|].
  exists added. split; [exact Hcalls|].
  eapply Forall_impl; [exact Hadded|]. intros c Hc. right. exact Hc.
Qed.

Lemma set_changed_info_step b : preserves info_step (set_changed b).
Proof.
  intros st r st' [= _ <-].
  split; [repeat split|]. split; [reflexivity|]. split; [reflexivity|].
  exists []. split; [symmetry; apply app_nil_r | constructor].
Qed.

(** [update_info] in three parts: the username, the guarded block, which
    always ends normally, and the end with [is_bot] and [save]. *)
Lemma update_info_shape world config source info st :
  exists st2,
    info_step
      {| self := if bool_decide (db.username (self st) = tl.username info)
                 then self st
                 else db.with_username (tl.username info) (self st);
         changed := negb (bool_decide (db.username (self st) = tl.username info));
         calls := calls st |}
      st2
    /\ changed st2
       = negb (bool_decide (db.username (self st) = tl.username info))
         || sub_updates_reported world config source info st
    /\ update_info world config source info st
       = if changed st2
         then (on_save world (db.with_is_bot (Some (tl.bot info)) (self st2)),
               {| self := db.with_is_bot (Some (tl.bot info)) (self st2);
                  changed := true;
                  calls := calls st2
                    ++ [save (db.with_is_bot (Some (tl.bot info)) (self st2))] |})
         else (Returns tt,
               {| self := db.with_is_bot (Some (tl.bot info)) (self st2);
                  changed := false;
                  calls := calls st2 |}).
Proof.
  pose proof info_step_refl as Hrefl.
  pose proof info_step_trans as Htrans.
  set (st1 := {| self := if bool_decide (db.username (self st) = tl.username info)
                         then self st
                         else db.with_username (tl.username info) (self st);
                 changed := negb (bool_decide (db.username (self st) = tl.username info));
                 calls := calls st |}).
  set (block :=
         when (negb (db.disable_updates (self st1)))
           (try_except
              (let! r := update_displayname world config source (tl.a_User info) in
               let! c := get_changed in
               set_changed (r || c) >>
               let! r0 := update_avatar world config source (tl.photo info) in
               let! c0 := get_changed in
               set_changed (r0 || c0))
              is_Exception (ret tt))).
  assert (Hblock : preserves info_step block).
  { unfold block.
    repeat preserves_step
      ltac:(first [apply update_displayname_info_step
                  | apply update_avatar_info_step])
      ltac:(apply set_changed_info_step). }
  assert (Hret : exists st2, block st1 = (Returns tt, st2)).
  { unfold block, when. destruct (negb (db.disable_updates (self st1))).
    - apply try_except_Exception_returns.
    - unfold ret. eauto. }
  destruct Hret as (st2 & Hrun).
  exists st2. split; [exact (Hblock _ _ _ Hrun)|].
  split.
  { revert Hrun. unfold sub_updates_reported. cbv zeta. fold st1.
    unfold block, when.
    destruct (db.disable_updates (self st1)); cbn [negb].
    - unfold ret. intros [= <-]. cbn [changed]. symmetry. apply orb_false_r.
    - unfold try_except. unfold bind at 1.
      destruct (update_displayname world config source (tl.a_User info) st1)
        as [[named|e] sa] eqn:Hname.
      + destruct (update_displayname_frame_step _ _ _ _ _ _ _ Hname)
          as (_ & Hsa & _).
        unfold bind at 1. unfold get_changed at 1.
        unfold bind at 1. unfold set_changed at 1.
        unfold bind at 1.
        destruct (update_avatar world config source (tl.photo info)
                    {| self := self sa; changed := named || changed sa;
                       calls := calls sa |})
          as [[pictured|e] sb] eqn:Hpicture.
        * destruct (update_avatar_frame_step _ _ _ _ _ _ _ Hpicture)
            as (_ & Hsb & _).
          cbn [changed] in Hsb.
          unfold bind, get_changed, set_changed.
          intros [= <-]. cbn [changed]. rewrite Hsb, Hsa. cbn [changed].
          destruct (negb _), named, pictured; reflexivity.
        * destruct (update_avatar_frame_step _ _ _ _ _ _ _ Hpicture)
            as (_ & Hsb & _).
          cbn [changed] in Hsb.
          unfold ret. intros [= <-]. rewrite Hsb, Hsa. cbn [changed].
          destruct (negb _), named; reflexivity.
      + destruct (update_displayname_frame_step _ _ _ _ _ _ _ Hname)
          as (_ & Hsa & _).
        unfold ret. intros [= <-]. rewrite Hsa. cbn [changed].
        symmetry. apply orb_false_r. }
  assert (Hprefix :
    (set_changed false >>
     let! p := get_self in
     when (negb (bool_decide (db.username p = tl.username info)))
          (assign (db.with_username (tl.username info)) >> set_changed true))
      st = (Returns tt, st1)).
  { unfold bind, set_changed, get_self, when, assign, ret, st1.
    cbn [self changed calls].
    destruct (bool_decide (db.username (self st) = tl.username info)); reflexivity. }
  unfold update_info.
  unfold bind at 1. unfold set_changed at 1.
  unfold bind at 1. unfold get_self at 1. cbn [self changed calls].
  unfold bind at 1.
  revert Hprefix. unfold bind at 1. unfold set_changed at 1.
  unfold bind at 1. unfold get_self at 1. cbn [self changed calls].
  intros ->.
  unfold bind at 1. unfold get_self at 1.
  unfold bind at 1. fold block. rewrite Hrun.
  unfold bind, assign, get_changed, get_self, when, await, ret.
  cbn [self changed calls].
  destruct (changed st2); reflexivity.
Qed.

(** X16: whatever the sub-updates and [save] do, after [update_info] the
    puppet has the username and the [is_bot] flag of the profile, and its
    id, registration flag, [disable_updates] and double-puppet fields are
    those it had before. *)
Theorem update_info_takes_username_and_is_bot (world : World) (config : Config)
    (source : au.AbstractUser) (info : tl.User) (st st' : Frame)
    (r : Outcome unit) :
  update_info world config source info st = (r, st') ->
  db.username (self st') = tl.username info
  /\ db.is_bot (self st') = Some (tl.bot info)
  /\ same_identity (self st) (self st').
Proof.
  destruct (update_info_shape world config source info st)
    as (st2 & (Hid & Hname & _ & _) & _ & ->).
  cbn [self] in Hid, Hname.
  assert (Hfinal :
    db.username (db.with_is_bot (Some (tl.bot info)) (self st2)) = tl.username info
    /\ db.is_bot (db.with_is_bot (Some (tl.bot info)) (self st2)) = Some (tl.bot info)
    /\ same_identity (self st) (db.with_is_bot (Some (tl.bot info)) (self st2))).
  { split; [|split; [reflexivity|]].
    - change (db.username (self st2) = tl.username info). rewrite Hname.
      case_bool_decide as Hsame; [exact Hsame | reflexivity].
    - unfold same_identity in *. cbn.
      destruct (bool_decide _); cbn in Hid; exact Hid. }
  destruct (changed st2); intros [= _ <-]; exact Hfinal.
Qed.

(** X17: [update_info] calls [save] at most once, as its last call and
    with the state it leaves, and exactly when the username changed or a
    sub-update reported a change; the other calls are those of the two
    sub-updates. The outcome of [update_info] is the outcome of that
    [save], and a normal return when there is none. *)
Theorem update_info_saves_last (world : World) (config : Config)
    (source : au.AbstractUser) (info : tl.User) (st st' : Frame)
    (r : Outcome unit) :
  update_info world config source info st = (r, st') ->
  changed st'
  = negb (bool_decide (db.username (self st) = tl.username info))
    || sub_updates_reported world config source info st
  /\ exists added,
       Forall (fun c => displayname_call c \/ avatar_call c) added
       /\ ((changed st' = false /\ r = Returns tt
            /\ calls st' = calls st ++ added)
           \/ (changed st' = true /\ r = on_save world (self st')
               /\ calls st' = calls st ++ added ++ [save (self st')])).
Proof.
  destruct (update_info_shape world config source info st)
    as (st2 & (_ & _ & _ & added & Hcalls & Hadded) & Hchanged & ->).
  cbn [calls] in Hcalls. rewrite <- Hchanged.
  destruct (changed st2); intros [= <- <-]; (split; [reflexivity|]);
    exists added; (split; [exact Hadded|]); cbn [self changed calls].
  - right. rewrite Hcalls, <- app_assoc. repeat split.
  - left. repeat split. exact Hcalls.
Qed.

Lemma update_info_takes_username_and_is_bot_witness :
  exists r st',
    update_info (Fixtures.world (Returns tt)) Fixtures.config Fixtures.user_7
      (Fixtures.alice true false tl.PhotoNone)
      (Fixtures.frame (Fixtures.puppet (Some (lit "Bob")) (Some 7) 99 None))
    = (r, st')
    /\ db.username (self st') = tl.username (Fixtures.alice true false tl.PhotoNone)
    /\ db.is_bot (self st') = Some false.
Proof.
  destruct (update_info (Fixtures.world (Returns tt)) Fixtures.config
              Fixtures.user_7 (Fixtures.alice true false tl.PhotoNone)
              (Fixtures.frame
                 (Fixtures.puppet (Some (lit "Bob")) (Some 7) 99 None)))
    as [r st'] eqn:Hrun.
  exists r, st'. split; [reflexivity|].
  destruct (update_info_takes_username_and_is_bot _ _ _ _ _ _ _ Hrun)
    as (Hname & Hbot & _).
  split; [exact Hname | exact Hbot].
Defined.

Lemma update_info_saves_last_witness :
  exists r st',
    update_info (Fixtures.world (Returns tt)) Fixtures.config Fixtures.user_7
      (Fixtures.alice true false tl.PhotoNone)
      (Fixtures.frame (Fixtures.puppet (Some (lit "Bob")) (Some 7) 99 None))
    = (r, st')
    /\ sub_updates_reported (Fixtures.world (Returns tt)) Fixtures.config
         Fixtures.user_7 (Fixtures.alice true false tl.PhotoNone)
         (Fixtures.frame (Fixtures.puppet (Some (lit "Bob")) (Some 7) 99 None))
       = true
    /\ changed st' = true
    /\ exists added,
         Forall (fun c => displayname_call c \/ avatar_call c) added
         /\ calls st' = added ++ [save (self st')].
Proof.
  destruct (update_info (Fixtures.world (Returns tt)) Fixtures.config
              Fixtures.user_7 (Fixtures.alice true false tl.PhotoNone)
              (Fixtures.frame
                 (Fixtures.puppet (Some (lit "Bob")) (Some 7) 99 None)))
    as [r st'] eqn:Hrun.
  destruct (update_info_saves_last _ _ _ _ _ _ _ Hrun)
    as (Hchanged & added & Hadded & Hcases).
  change (changed st' = true) in Hchanged.
  exists r, st'. split; [reflexivity|]. split; [reflexivity|].
  split; [exact Hchanged|].
  exists added. split; [exact Hadded|].
  destruct Hcases as [(Hfalse & _)|(_ & _ & Hcalls)]; [congruence | exact Hcalls].
Defined.

(** ** The getter, one call at a time *)

Section GetterAlone.
Import Cache Coalescing.

Lemma locks_roundtrip (key : option Z) (held : gset (option Z)) :
  key ∉ held -> ({[key]} ∪ held) ∖ {[key]} = held.
Proof.
  intros Hfree. apply set_eq. intros x.
  rewrite elem_of_difference, elem_of_union, elem_of_singleton.
  split; [intros [[->|Hx] Hne]; [contradiction | exact Hx] |].
  intros Hx. split; [right; exact Hx | intros ->; contradiction].
Qed.

Lemma with_locks_same (c : Class) : with_locks (_async_get_locks c) c = c.
Proof. destruct c; reflexivity. Qed.

(** X18: a cached id is answered from the cache: the table is not asked,
    nothing is constructed, and the class is left as it was, whatever
    [create] is. *)
Theorem get_by_tgid_cached (k : Z) (create : bool) (c : Class) (r : ref) :
  Some k ∉ _async_get_locks c ->
  by_tgid c !! k = Some r ->
  run (get_by_tgid (Some k) create) c = Some (Returns (Some r), c).
Proof.
  intros Hfree Hhit. unfold get_by_tgid, async_getter_lock.
  cbn [run serve]. rewrite (bool_decide_eq_false_2 _ Hfree).
  cbn. rewrite Hhit. cbn.
  rewrite (locks_roundtrip _ _ Hfree).
  do 2 f_equal. destruct c; reflexivity.
Qed.

(** X19: an id that is neither cached nor stored, asked for with
    [create=False], gives [None]: one [SELECT] is sent, no row is inserted,
    no object is constructed and the cache maps stay as they were. *)
Theorem get_by_tgid_not_found (k : Z) (c : Class) :
  Some k ∉ _async_get_locks c ->
  by_tgid c !! k = None ->
  table c !! k = None ->
  run (get_by_tgid (Some k) false) c
  = Some (Returns None, with_table (table c) (queries c ++ [fetchrow k]) c).
Proof.
  intros Hfree Hmiss Hrow. unfold get_by_tgid, async_getter_lock.
  cbn [run serve]. rewrite (bool_decide_eq_false_2 _ Hfree).
  cbn. rewrite Hmiss. cbn. rewrite Hrow. cbn.
  rewrite (locks_roundtrip _ _ Hfree). reflexivity.
Qed.

(** X20: an id that is stored but not cached is loaded: one [SELECT] and
    no [INSERT]; one new object is constructed, entered in [by_tgid] under
    the id of the row (and in [by_custom_mxid] when the row has a custom
    mxid), and returned. The object has the values of the row, except that
    its [base_url] is [None] when the column is null or empty and the URL
    built from the column otherwise. *)
Theorem get_by_tgid_loads (k : Z) (create : bool) (c : Class) (row : db.Puppet) :
  Some k ∉ _async_get_locks c ->
  by_tgid c !! k = None ->
  table c !! k = Some row ->
  exists c' puppet,
    run (get_by_tgid (Some k) create) c
    = Some (Returns (Some (length (objects c))), c')
    /\ objects c' = objects c ++ [puppet]
    /\ puppet = db.with_base_url (db.base_url puppet) row
    /\ db.base_url puppet
       = match db.base_url row with
         | Some (db.text (ch :: s)) | Some (db.URL (ch :: s)) =>
             Some (db.URL (ch :: s))
         | _ => None
         end
    /\ by_tgid c' = <[db.id row := length (objects c)]> (by_tgid c)
    /\ by_custom_mxid c'
       = match db.custom_mxid row with
         | Some (ch :: mxid) => <[ch :: mxid := length (objects c)]> (by_custom_mxid c)
         | _ => by_custom_mxid c
         end
    /\ table c' = table c
    /\ queries c' = queries c ++ [fetchrow k]
    /\ _async_get_locks c' = _async_get_locks c.
Proof.
  intros Hfree Hmiss Hrow. unfold get_by_tgid, async_getter_lock.
  cbn [run serve]. rewrite (bool_decide_eq_false_2 _ Hfree).
  cbn. rewrite Hmiss. cbn. rewrite Hrow. cbn.
  rewrite lookup_app_r by lia. rewrite Nat.sub_diag. cbn.
  eexists. exists (row_arguments row). split; [reflexivity|]. cbn.
  rewrite (locks_roundtrip _ _ Hfree).
  repeat split.
  - destruct (db.base_url row) as [[[|ch s]|[|ch s]]|]; reflexivity.
  - apply insert_insert_eq.
  - destruct (db.custom_mxid row) as [[|ch mxid]|]; try reflexivity.
    apply insert_insert_eq.
Qed.

(** X21: an id that is neither cached nor stored, asked for with
    [create=True], is created: a new object with the default values is
    constructed and cached under the id, one [SELECT] and then one [INSERT]
    of these values are sent, the row is in the table afterwards, and the
    object is returned; the call does not raise. *)
Theorem get_by_tgid_creates (k : Z) (c : Class) :
  Some k ∉ _async_get_locks c ->
  by_tgid c !! k = None ->
  table c !! k = None ->
  exists c',
    run (get_by_tgid (Some k) true) c
    = Some (Returns (Some (length (objects c))), c')
    /\ objects c' = objects c ++ [new_puppet k]
    /\ by_tgid c' = <[k := length (objects c)]> (by_tgid c)
    /\ by_custom_mxid c' = by_custom_mxid c
    /\ table c' = <[k := new_puppet k]> (table c)
    /\ queries c' = queries c ++ [fetchrow k; execute_insert (new_puppet k)]
    /\ _async_get_locks c' = _async_get_locks c.
Proof.
  intros Hfree Hmiss Hrow. unfold get_by_tgid, async_getter_lock.
  cbn [run serve]. rewrite (bool_decide_eq_false_2 _ Hfree).
  cbn. rewrite Hmiss. cbn. rewrite Hrow. cbn.
  rewrite lookup_app_r by lia. rewrite Nat.sub_diag. cbn.
  rewrite Hrow. cbn.
  rewrite lookup_app_r by lia. rewrite Nat.sub_diag. cbn.
  eexists. split; [reflexivity|]. cbn.
  rewrite (locks_roundtrip _ _ Hfree).
  repeat split.
  - apply insert_insert_eq.
  - rewrite <- app_assoc. reflexivity.
Qed.

End GetterAlone.

Section GetterComposed.
Import Cache Coalescing.

Lemma get_by_tgid_cached_witness :
  run (get_by_tgid (Some 42) false) Scenarios.cached_class
  = Some (Returns (Some 0%nat), Scenarios.cached_class).
Proof.
  apply (get_by_tgid_cached 42 false Scenarios.cached_class 0%nat).
  - simpl. apply not_elem_of_empty.
  - reflexivity.
Defined.

Lemma get_by_tgid_not_found_witness :
  run (get_by_tgid (Some 42) false) Fixtures.empty_class
  = Some (Returns None,
          with_table ∅ [fetchrow 42] Fixtures.empty_class).
Proof.
  apply (get_by_tgid_not_found 42 Fixtures.empty_class).
  - simpl. apply not_elem_of_empty.
  - reflexivity.
  - reflexivity.
Defined.

Lemma get_by_tgid_loads_witness :
  exists c' puppet,
    run (get_by_tgid (Some 42) false)
        (with_table
           {[ 42 := db.with_base_url (Some (db.text [])) Scenarios.stored_row ]}
           [] Fixtures.empty_class)
    = Some (Returns (Some 0%nat), c')
    /\ objects c' = [puppet]
    /\ db.base_url puppet = None
    /\ queries c' = [fetchrow 42].
Proof.
  destruct (get_by_tgid_loads 42 false
              (with_table
                 {[ 42 := db.with_base_url (Some (db.text []))
                                           Scenarios.stored_row ]}
                 [] Fixtures.empty_class)
              (db.with_base_url (Some (db.text [])) Scenarios.stored_row))
    as (c' & puppet & Hrun & Hobj & _ & Hurl & _ & _ & _ & Hq & _).
  - simpl. apply not_elem_of_empty.
  - reflexivity.
  - reflexivity.
  - exists c', puppet. repeat split; assumption.
Defined.

Lemma get_by_tgid_creates_witness :
  exists c',
    run (get_by_tgid (Some 42) true) Fixtures.empty_class
    = Some (Returns (Some 0%nat), c')
    /\ objects c' = [new_puppet 42]
    /\ queries c' = [fetchrow 42; execute_insert (new_puppet 42)].
Proof.
  destruct (get_by_tgid_creates 42 Fixtures.empty_class)
    as (c' & Hrun & Hobj & _ & _ & _ & Hq & _).
  - simpl. apply not_elem_of_empty.
  - reflexivity.
  - reflexivity.
  - exists c'. repeat split; assumption.
Defined.

(** The class after a load and after a creation. *)
Lemma run_get_by_tgid_cases (k : Z) (create : bool) (c : Class) :
  Some k ∉ _async_get_locks c ->
  run (get_by_tgid (Some k) create) c
  = match by_tgid c !! k with
    | Some r => Some (Returns (Some r), c)
    | None =>
        match table c !! k with
        | Some row =>
            Some (Returns (Some (length (objects c))),
                  {| by_tgid := <[db.id row := length (objects c)]> (by_tgid c);
                     by_custom_mxid :=
                       match db.custom_mxid row with
                       | Some (ch :: mxid) =>
                           <[ch :: mxid := length (objects c)]> (by_custom_mxid c)
                       | _ => by_custom_mxid c
                       end;
                     objects := objects c ++ [row_arguments row];
                     _async_get_locks := _async_get_locks c;
                     table := table c;
                     queries := queries c ++ [fetchrow k] |})
        | None =>
            if create then
              Some (Returns (Some (length (objects c))),
                    {| by_tgid := <[k := length (objects c)]> (by_tgid c);
                       by_custom_mxid := by_custom_mxid c;
                       objects := objects c ++ [new_puppet k];
                       _async_get_locks := _async_get_locks c;
                       table := <[k := new_puppet k]> (table c);
                       queries := queries c
                         ++ [fetchrow k; execute_insert (new_puppet k)] |})
            else
              Some (Returns None,
                    with_table (table c) (queries c ++ [fetchrow k]) c)
        end
    end.
Proof.
  intros Hfree. unfold get_by_tgid, async_getter_lock.
  cbn [run serve]. rewrite (bool_decide_eq_false_2 _ Hfree). cbn.
  destruct (by_tgid c !! k) as [r|] eqn:Hcache; cbn.
  { rewrite (locks_roundtrip _ _ Hfree). do 2 f_equal. destruct c; reflexivity. }
  destruct (table c !! k) as [row|] eqn:Hrow; cbn.
  { rewrite lookup_app_r by lia. rewrite Nat.sub_diag. cbn.
    rewrite (locks_roundtrip _ _ Hfree). do 2 f_equal.
    unfold with_locks, cache, with_caches, with_objects. cbn.
    f_equal; [apply insert_insert_eq|].
    destruct (db.custom_mxid row) as [[|ch mxid]|]; try reflexivity.
    apply insert_insert_eq. }
  destruct create; cbn.
  - rewrite lookup_app_r by lia. rewrite Nat.sub_diag. cbn.
    rewrite Hrow. cbn.
    rewrite lookup_app_r by lia. rewrite Nat.sub_diag. cbn.
    rewrite (locks_roundtrip _ _ Hfree). do 2 f_equal.
    unfold with_locks, cache, with_caches, with_objects. cbn.
    f_equal; [apply insert_insert_eq | rewrite <- app_assoc; reflexivity].
  - rewrite (locks_roundtrip _ _ Hfree). reflexivity.
Qed.

(** X22: once the getter has returned a puppet for an id, asking again,
    with either value of [create], returns the same object without asking
    the table and leaves the class as it is. *)
Theorem get_by_tgid_again (k : Z) (create create' : bool) (c c' : Class)
    (r : ref) :
  Some k ∉ _async_get_locks c ->
  (forall row, table c !! k = Some row -> db.id row = k) ->
  run (get_by_tgid (Some k) create) c = Some (Returns (Some r), c') ->
  run (get_by_tgid (Some k) create') c' = Some (Returns (Some r), c').
Proof.
  intros Hfree Hkey Hrun.
  rewrite (run_get_by_tgid_cases _ _ _ Hfree) in Hrun.
  assert (Hhit : (Some k ∉ _async_get_locks c') /\ by_tgid c' !! k = Some r).
  { destruct (by_tgid c !! k) as [r0|] eqn:Hcache.
    - injection Hrun as <- <-. split; assumption.
    - destruct (table c !! k) as [row|] eqn:Hrow.
      + injection Hrun as <- <-. split; [exact Hfree|]. cbn.
        rewrite (Hkey row eq_refl). apply lookup_insert_eq.
      + destruct create; [|discriminate].
        injection Hrun as <- <-. split; [exact Hfree|]. cbn.
        apply lookup_insert_eq. }
  destruct Hhit as (Hfree' & Hcache').
  rewrite (run_get_by_tgid_cases _ _ _ Hfree'), Hcache'. reflexivity.
Qed.

Lemma get_by_tgid_again_witness :
  exists c',
    run (get_by_tgid (Some 42) true) Fixtures.empty_class
    = Some (Returns (Some 0%nat), c')
    /\ run (get_by_tgid (Some 42) false) c' = Some (Returns (Some 0%nat), c').
Proof.
  destruct (run (get_by_tgid (Some 42) true) Fixtures.empty_class)
    as [[res c']|] eqn:Hrun; [|discriminate Hrun].
  assert (Hres : res = Returns (Some 0%nat)).
  { revert Hrun. unfold get_by_tgid, async_getter_lock. cbn.
    intros [= <- _]. reflexivity. }
  subst res. exists c'. split; [reflexivity|].
  apply (get_by_tgid_again 42 true false Fixtures.empty_class c' 0%nat).
  - simpl. apply not_elem_of_empty.
  - intros row Hrow. simpl in Hrow. rewrite lookup_empty in Hrow. discriminate.
  - exact Hrun.
Defined.

(** X23: what the getter creates can be loaded back. After a restart,
    which loses the cache and the objects but not the table, asking for the
    id with [create=False] sends one [SELECT] and returns a puppet with the
    values that were inserted. *)
Theorem get_by_tgid_survives_restart (k : Z) (c c' : Class) (r : ref) :
  Some k ∉ _async_get_locks c ->
  by_tgid c !! k = None ->
  table c !! k = None ->
  run (get_by_tgid (Some k) true) c = Some (Returns (Some r), c') ->
  exists c'',
    run (get_by_tgid (Some k) false) (restart c')
    = Some (Returns (Some 0%nat), c'')
    /\ objects c'' = [new_puppet k]
    /\ by_tgid c'' !! k = Some 0%nat
    /\ table c'' = table c'
    /\ queries c'' = queries c' ++ [fetchrow k].
Proof.
  intros Hfree Hcache Hrow Hrun.
  rewrite (run_get_by_tgid_cases _ _ _ Hfree), Hcache, Hrow in Hrun.
  injection Hrun as <- <-.
  assert (Hfree' : Some k ∉ _async_get_locks
                     (restart
                        {| by_tgid := <[k := length (objects c)]> (by_tgid c);
                           by_custom_mxid := by_custom_mxid c;
                           objects := objects c ++ [new_puppet k];
                           _async_get_locks := _async_get_locks c;
                           table := <[k := new_puppet k]> (table c);
                           queries := queries c
                             ++ [fetchrow k; execute_insert (new_puppet k)] |}))
    by (cbn; apply not_elem_of_empty).
  rewrite (run_get_by_tgid_cases _ _ _ Hfree'). cbn.
  rewrite lookup_empty, lookup_insert_eq. cbn.
  eexists. split; [reflexivity|]. cbn.
  repeat split. apply lookup_insert_eq.
Qed.

Lemma get_by_tgid_survives_restart_witness :
  exists c' c'',
    run (get_by_tgid (Some 42) true) Fixtures.empty_class
    = Some (Returns (Some 0%nat), c')
    /\ run (get_by_tgid (Some 42) false) (restart c')
       = Some (Returns (Some 0%nat), c'')
    /\ objects c'' = [new_puppet 42].
Proof.
  destruct (run (get_by_tgid (Some 42) true) Fixtures.empty_class)
    as [[res c']|] eqn:Hrun; [|discriminate Hrun].
  assert (Hres : res = Returns (Some 0%nat)).
  { revert Hrun. unfold get_by_tgid, async_getter_lock. cbn.
    intros [= <- _]. reflexivity. }
  subst res.
  destruct (get_by_tgid_survives_restart 42 Fixtures.empty_class c' 0%nat)
    as (c'' & Hagain & Hobj & _).
  - simpl. apply not_elem_of_empty.
  - reflexivity.
  - reflexivity.
  - exact Hrun.
  - exists c', c''. repeat split; assumption.
Defined.

(** X24: the getter keeps the cache sound. If every entry of [by_tgid]
    leads to an object with that id and every row is stored under its id,
    the same holds after a call; the objects constructed before are still
    there, unchanged; and a puppet returned for an id has that id. *)
Theorem get_by_tgid_keeps_cache_consistent (k : Z) (create : bool)
    (c c' : Class) (res : Outcome (option ref)) :
  Some k ∉ _async_get_locks c ->
  cache_consistent c -> table_keyed c ->
  run (get_by_tgid (Some k) create) c = Some (res, c') ->
  cache_consistent c' /\ table_keyed c'
  /\ (exists new, objects c' = objects c ++ new)
  /\ (forall r, res = Returns (Some r) ->
      exists values, objects c' !! r = Some values /\ db.id values = k).
Proof.
  intros Hfree Hcons Hkeyed Hrun.
  rewrite (run_get_by_tgid_cases _ _ _ Hfree) in Hrun.
  assert (Hgrow : forall t r0 new,
            by_tgid c !! t = Some r0 ->
            exists values, (objects c ++ new) !! r0 = Some values
                           /\ db.id values = t).
  { intros t r0 new Ht. destruct (Hcons t r0 Ht) as (v & Hv & Hid).
    exists v. split; [|exact Hid]. apply lookup_app_l_Some. exact Hv. }
  assert (Hfresh : forall t values,
            db.id values = t ->
            exists v, (objects c ++ [values]) !! length (objects c) = Some v
                      /\ db.id v = t).
  { intros t values Hid. exists values. split; [|exact Hid].
    rewrite lookup_app_r by lia. rewrite Nat.sub_diag. reflexivity. }
  destruct (by_tgid c !! k) as [r0|] eqn:Hcache.
  - injection Hrun as <- <-.
    split; [exact Hcons|]. split; [exact Hkeyed|].
    split; [exists []; symmetry; apply app_nil_r|].
    intros r [= <-]. exact (Hcons k r0 Hcache).
  - destruct (table c !! k) as [row|] eqn:Hrow.
    + injection Hrun as <- <-. pose proof (Hkeyed k row Hrow) as Hid.
      split; [|split; [exact Hkeyed|split; [eexists; reflexivity|]]].
      * intros t r1. cbn. rewrite Hid.
        destruct (decide (k = t)) as [<-|Hne].
        -- rewrite lookup_insert_eq. intros [= <-]. apply Hfresh. exact Hid.
        -- rewrite lookup_insert_ne by exact Hne. apply Hgrow.
      * intros r [= <-]. cbn. apply Hfresh. exact Hid.
    + destruct create.
      * injection Hrun as <- <-.
        split; [|split; [|split; [eexists; reflexivity|]]].
        -- intros t r1. cbn.
           destruct (decide (k = t)) as [<-|Hne].
           ++ rewrite lookup_insert_eq. intros [= <-]. apply Hfresh. reflexivity.
           ++ rewrite lookup_insert_ne by exact Hne. apply Hgrow.
        -- intros t row. cbn.
           destruct (decide (k = t)) as [<-|Hne].
           ++ rewrite lookup_insert_eq. intros [= <-]. reflexivity.
           ++ rewrite lookup_insert_ne by exact Hne. apply Hkeyed.
        -- intros r [= <-]. cbn. apply Hfresh. reflexivity.
      * injection Hrun as <- <-.
        split; [exact Hcons|]. split; [exact Hkeyed|].
        split; [exists []; symmetry; apply app_nil_r|].
        intros r H. discriminate.
Qed.

Lemma get_by_tgid_keeps_cache_consistent_witness :
  exists res c',
    run (get_by_tgid (Some 42) true) Scenarios.stored_class = Some (res, c')
    /\ cache_consistent c' /\ table_keyed c'.
Proof.
  destruct (run (get_by_tgid (Some 42) true) Scenarios.stored_class)
    as [[res c']|] eqn:Hrun; [|discriminate Hrun].
  exists res, c'. split; [reflexivity|].
  destruct (get_by_tgid_keeps_cache_consistent 42 true Scenarios.stored_class
              c' res) as (Hc & Hk & _).
  - simpl. apply not_elem_of_empty.
  - intros t r Ht. simpl in Ht. rewrite lookup_empty in Ht. discriminate.
  - intros t row Ht. simpl in Ht.
    apply lookup_singleton_Some in Ht as [<- <-]. reflexivity.
  - exact Hrun.
  - split; assumption.
Defined.

End GetterComposed.

(** ** The lock of [get_by_tgid] under interleaving *)

Section Exclusion.
Import Cache Coalescing.

Lemma prog_inside (k : Z) (s : Shape) :
  in_critical_section k (prog k s)
  <-> s <> Waiting /\ forall r, s <> Done r.
Proof.
  unfold in_critical_section. split.
  - intros (Hne & Hfinal). split.
    + intros ->. apply Hne. reflexivity.
    + intros r ->. discriminate Hfinal.
  - intros (Hw & Hd).
    destruct s as [| | |[row|]|self|self|self];
      try (split; [cbn; discriminate | reflexivity]).
    + contradiction.
    + exfalso. exact (Hd self eq_refl).
Qed.

(** X25: tasks that call [get_by_tgid] for the same uncached id exclude
    each other. In every state the event loop can reach, at most one task
    is inside the [async with] block; the lock of the id is held exactly
    when some task is inside; so once every task has returned the lock is
    free again. *)
Theorem get_by_tgid_mutual_exclusion (k : Z) (N n : nat) (c0 c : Class)
    (tasks : list (Prog (option ref))) :
  by_tgid c0 !! k = None ->
  Some k ∉ _async_get_locks c0 ->
  (forall row, table c0 !! k = Some row -> db.id row = k) ->
  steps n (c0, replicate N (get_by_tgid (Some k) true)) (c, tasks) ->
  (forall i j p q,
      tasks !! i = Some p -> tasks !! j = Some q ->
      in_critical_section k p -> in_critical_section k q -> i = j)
  /\ (Some k ∈ _async_get_locks c
      <-> exists i p, tasks !! i = Some p /\ in_critical_section k p)
  /\ ((forall i p, tasks !! i = Some p -> is_final p = true) ->
      Some k ∉ _async_get_locks c).
Proof.
  intros Hcache Hfree Hkey Hsteps.
  destruct (steps_preserve k c0 _ _ _ Hsteps c0 (replicate N Waiting))
    as (c' & shapes & Hst & HInv & _ & _).
  { rewrite fmap_replicate. reflexivity. }
  { exact (inv_init k c0 N Hcache Hfree Hkey). }
  injection Hst as -> ->.
  assert (Hshape : forall i p,
            (prog k <$> shapes) !! i = Some p -> in_critical_section k p ->
            exists s, shapes !! i = Some s /\ s <> Waiting
                      /\ forall r, s <> Done r).
  { intros i p Hi Hin. rewrite list_lookup_fmap in Hi.
    destruct (shapes !! i) as [s|]; [|discriminate].
    injection Hi as <-. exists s. split; [reflexivity|].
    exact (proj1 (prog_inside k s) Hin). }
  assert (Hiff : Some k ∈ _async_get_locks c'
                 <-> exists i p, (prog k <$> shapes) !! i = Some p
                                 /\ in_critical_section k p).
  { split.
    - intros Hheld.
      pose proof HInv as (_ & _ & holder & Hhold & _).
      destruct holder as [h|].
      + destruct Hhold as (_ & s & Hs & Hok).
        exists h, (prog k s). split.
        * rewrite list_lookup_fmap, Hs. reflexivity.
        * apply (proj2 (prog_inside k s)). split.
          -- intros ->. exact Hok.
          -- intros r ->. exact Hok.
      + destruct Hhold as (Hout & _). contradiction.
    - intros (i & p & Hi & Hin).
      destruct (Hshape i p Hi Hin) as (s & Hs & Hw & Hd).
      destruct (inv_holder k c0 _ _ _ _ HInv Hs Hw Hd) as (Hheld & _).
      exact Hheld. }
  split; [|split; [exact Hiff|]].
  - intros i j p q Hi Hj Hp Hq.
    destruct (Hshape i p Hi Hp) as (s & Hs & Hw & Hd).
    destruct (Hshape j q Hj Hq) as (s' & Hs' & Hw' & Hd').
    destruct (decide (j = i)) as [->|Hne]; [reflexivity|].
    destruct (inv_holder k c0 _ _ _ _ HInv Hs Hw Hd) as (_ & _ & Hidle).
    destruct (Hidle j s' Hs' Hne) as [->|(r & -> & _)].
    + contradiction.
    + exfalso. exact (Hd' r eq_refl).
  - intros Hall Hheld. apply Hiff in Hheld as (i & p & Hi & (_ & Hfinal)).
    rewrite (Hall i p Hi) in Hfinal. discriminate.
Qed.

(** X26: a puppet the getter creates is in [by_tgid] before its row is in
    the table. In every state the event loop can reach, a task suspended
    in an [INSERT] is inserting the new puppet of the id; the table has no
    row for the id yet, and [by_tgid] already leads to that puppet. *)
Theorem get_by_tgid_caches_before_insert (k : Z) (N n : nat) (c0 c : Class)
    (tasks : list (Prog (option ref))) (i : nat) (row : db.Puppet)
    (K : Answer -> Prog (option ref)) :
  by_tgid c0 !! k = None ->
  Some k ∉ _async_get_locks c0 ->
  (forall row, table c0 !! k = Some row -> db.id row = k) ->
  steps n (c0, replicate N (get_by_tgid (Some k) true)) (c, tasks) ->
  tasks !! i = Some (Await (execute_insert row) K) ->
  row = new_puppet k
  /\ table c !! k = None
  /\ exists r, by_tgid c !! k = Some r /\ objects c !! r = Some (new_puppet k).
Proof.
  intros Hcache Hfree Hkey Hsteps Hi.
  destruct (steps_preserve k c0 _ _ _ Hsteps c0 (replicate N Waiting))
    as (c' & shapes & Hst & HInv & _ & _).
  { rewrite fmap_replicate. reflexivity. }
  { exact (inv_init k c0 N Hcache Hfree Hkey). }
  injection Hst as -> ->.
  rewrite list_lookup_fmap in Hi.
  destruct (shapes !! i) as [s|] eqn:Hs; [|discriminate].
  injection Hi as Hprog.
  destruct (prog_await k s _ _ Hprog)
    as [(_ & Hreq & _)|[(_ & Hreq & _)|(self & -> & Hreq & _)]];
    try discriminate Hreq.
  injection Hreq as ->.
  destruct (inv_holder k c0 _ _ _ _ HInv Hs) as (_ & Hok & _);
    [discriminate | discriminate |].
  destruct Hok as (_ & Htable & Hby & Hobj & _).
  split; [reflexivity|]. split; [exact Htable|].
  exists self. split; assumption.
Qed.

Ltac answer i :=
  eapply steps_S;
  [eapply (step_answer _ _ i); [reflexivity | reflexivity] |].
Ltac resume i :=
  eapply steps_S;
  [eapply (step_resume _ _ i);
   [reflexivity | reflexivity | reflexivity | reflexivity] |].

(** Of two tasks asking for account 42, the first has taken the lock, found
    no row and constructed the puppet, and waits for its [INSERT]. *)
Lemma first_task_inserting :
  exists c K,
    steps 4 (Fixtures.empty_class, replicate 2 (get_by_tgid (Some 42) true))
          (c, [Await (execute_insert (new_puppet 42)) K;
               get_by_tgid (Some 42) true]).
Proof.
  eexists. eexists.
  answer 0%nat. resume 0%nat. answer 0%nat. resume 0%nat.
  apply steps_O.
Qed.

Lemma get_by_tgid_mutual_exclusion_witness :
  exists c tasks,
    steps 4 (Fixtures.empty_class, replicate 2 (get_by_tgid (Some 42) true))
          (c, tasks)
    /\ (Some 42 ∈ _async_get_locks c
        <-> exists i p, tasks !! i = Some p /\ in_critical_section 42 p).
Proof.
  destruct first_task_inserting as (c & K & Hrun).
  exists c, [Await (execute_insert (new_puppet 42)) K;
             get_by_tgid (Some 42) true].
  split; [exact Hrun|].
  destruct (get_by_tgid_mutual_exclusion 42 2 4 Fixtures.empty_class c
              [Await (execute_insert (new_puppet 42)) K;
               get_by_tgid (Some 42) true])
    as (_ & Hiff & _).
  - reflexivity.
  - simpl. apply not_elem_of_empty.
  - intros row Hrow. simpl in Hrow. rewrite lookup_empty in Hrow. discriminate.
  - exact Hrun.
  - exact Hiff.
Defined.

Lemma get_by_tgid_caches_before_insert_witness :
  exists c r,
    table c !! 42 = None
    /\ by_tgid c !! 42 = Some r
    /\ objects c !! r = Some (new_puppet 42).
Proof.
  destruct first_task_inserting as (c & K & Hrun).
  destruct (get_by_tgid_caches_before_insert 42 2 4 Fixtures.empty_class c
              [Await (execute_insert (new_puppet 42)) K;
               get_by_tgid (Some 42) true]
              0%nat (new_puppet 42) K)
    as (_ & Htable & r & Hby & Hobj).
  - reflexivity.
  - simpl. apply not_elem_of_empty.
  - intros row Hrow. simpl in Hrow. rewrite lookup_empty in Hrow. discriminate.
  - exact Hrun.
  - reflexivity.
  - exists c, r. repeat split; assumption.
Defined.

End Exclusion.
